(** * server-vertex-search: the per-user provisioning and ingestion pipeline

    A shallow embedding of [src/server.js].  The JavaScript values that the
    program handles (the parsed input batch, the plain objects it uses as
    dictionaries, the strings it builds) are modelled as data; the calls that
    leave the process ([getToken], [fetch], the bucket upload, [Date.now],
    the [fs] calls) are answered by an oracle that sees the whole history of
    earlier calls, and every call is logged with its outcome.

    Strings are [string]: one [ascii] stands for one UTF-16 code unit below
    256.  Numbers are the integers ([Z]); their string form is the plain
    decimal numeral, as JavaScript prints integers of magnitude below 10^21. *)

From Stdlib Require Import ZArith NArith String Ascii List Lia DecimalString.
From Stdlib Require DecimalZ DecimalPos.
From stdpp Require Import base gmap strings list.

Import ListNotations.
Local Open Scope string_scope.
Local Open Scope list_scope.

(** * The program *)

(** ** JavaScript values *)

(** The values [JSON.parse] produces, plus [undefined], which is what reading
    a missing property gives.  An object lists its own properties in
    enumeration order. *)
#[warnings="-register-all"]
Inductive value : Type :=
| VUndefined
| VNull
| VBool (b : bool)
| VNum (n : Z)
| VStr (s : string)
| VArr (elems : list value)
| VObj (props : list (string * value)).

(** Exceptions: a [TypeError] raised by the engine, or an [Error]
    (constructed by the program or by a library). Both carry [.message]. *)
Inductive exn : Type :=
| TypeError (msg : string)
| Error (msg : string).

Definition message (e : exn) : string :=
  match e with
  | TypeError m => m
  | Error m => m
  end.

(** Results of computations that may throw. *)
Definition result (A : Type) : Type := exn + A.

Definition rbind {A B} (r : result A) (k : A -> result B) : result B :=
  match r with
  | inl e => inl e
  | inr a => k a
  end.

Fixpoint rmap {A B} (f : A -> result B) (l : list A) : result (list B) :=
  match l with
  | [] => inr []
  | x :: t =>
      match f x with
      | inl e => inl e
      | inr y =>
          match rmap f t with
          | inl e => inl e
          | inr ys => inr (y :: ys)
          end
      end
  end.

(** ** Strings *)

Definition newline : ascii := "010"%char.
Definition dquote : ascii := "034"%char.
Definition nl : string := String newline "".

(** [Array.prototype.join] on an array of strings. *)
Fixpoint join (sep : string) (l : list string) : string :=
  match l with
  | [] => ""
  | [x] => x
  | x :: t => x +:+ sep +:+ join sep t
  end.

Definition Number_toString (n : Z) : string :=
  NilZero.string_of_int (Z.to_int n).

(** Own-property lookup in an object's property list. *)
Fixpoint assoc {A} (k : string) (l : list (string * A)) : option A :=
  match l with
  | [] => None
  | (k', v) :: t => if String.eqb k k' then Some v else assoc k t
  end.

(** [ToString] on a value.  An array joins its elements with a comma,
    [undefined] and [null] elements giving the empty string.  A plain object
    goes through [Object.prototype.toString], unless it has an own property
    [toString]: data is never callable, so the conversion is refused. *)
Fixpoint ToString (v : value) : result string :=
  match v with
  | VUndefined => inr "undefined"
  | VNull => inr "null"
  | VBool true => inr "true"
  | VBool false => inr "false"
  | VNum n => inr (Number_toString n)
  | VStr s => inr s
  | VArr l =>
      match
        (fix elems (l : list value) : result (list string) :=
           match l with
           | [] => inr []
           | x :: t =>
               match (match x with
                      | VUndefined | VNull => inr ""
                      | _ => ToString x
                      end) with
               | inl e => inl e
               | inr s =>
                   match elems t with
                   | inl e => inl e
                   | inr ss => inr (s :: ss)
                   end
               end
           end) l
      with
      | inl e => inl e
      | inr ss => inr (join "," ss)
      end
  | VObj ps =>
      match assoc "toString" ps with
      | Some _ => inl (TypeError "Cannot convert object to primitive value")
      | None => inr "[object Object]"
      end
  end.

(** ** JSON.stringify *)

Definition hex_digit (n : N) : ascii :=
  match n with
  | 0 => "0" | 1 => "1" | 2 => "2" | 3 => "3" | 4 => "4" | 5 => "5"
  | 6 => "6" | 7 => "7" | 8 => "8" | 9 => "9" | 10 => "a" | 11 => "b"
  | 12 => "c" | 13 => "d" | 14 => "e" | _ => "f"
  end%N%char.

(** One code unit inside a JSON string literal. *)
Definition escape_char (c : ascii) : string :=
  let n := N_of_ascii c in
  if (n =? 8)%N then "\b"
  else if (n =? 9)%N then "\t"
  else if (n =? 10)%N then "\n"
  else if (n =? 12)%N then "\f"
  else if (n =? 13)%N then "\r"
  else if (n =? 34)%N then String "\" (String dquote "")
  else if (n =? 92)%N then "\\"
  else if (n <? 32)%N then
    "\u00" +:+ String (hex_digit (n / 16)) (String (hex_digit (n mod 16)) "")
  else String c "".

Fixpoint escape (s : string) : string :=
  match s with
  | "" => ""
  | String c t => escape_char c +:+ escape t
  end.

Definition quote (s : string) : string :=
  String dquote (escape s) +:+ String dquote "".

(** [JSON.stringify] without indentation, on a value that is not [undefined]
    at top level (the program only passes an object literal).  Inside an
    array [undefined] prints as [null]; inside an object a property whose
    value is [undefined] is left out. *)
Fixpoint JSON_stringify (v : value) : string :=
  match v with
  | VUndefined => "null"
  | VNull => "null"
  | VBool true => "true"
  | VBool false => "false"
  | VNum n => Number_toString n
  | VStr s => quote s
  | VArr l => "[" +:+ join "," (map JSON_stringify l) +:+ "]"
  | VObj ps =>
      "{" +:+
      join ","
        ((fix members (ps : list (string * value)) : list string :=
            match ps with
            | [] => []
            | (k, VUndefined) :: t => members t
            | (k, x) :: t => (quote k +:+ ":" +:+ JSON_stringify x) :: members t
            end) ps)
      +:+ "}"
  end.

(** [String.prototype.replace(/[^a-zA-Z0-9_-]/g, "_")]. *)
Definition in_class (c : ascii) : bool :=
  let n := N_of_ascii c in
  ((97 <=? n) && (n <=? 122)        (* a-z *)
   || (65 <=? n) && (n <=? 90)      (* A-Z *)
   || (48 <=? n) && (n <=? 57)      (* 0-9 *)
   || (n =? 95)                     (* _ *)
   || (n =? 45))%N.                 (* - *)

Fixpoint replace_outside_class (s : string) : string :=
  match s with
  | "" => ""
  | String c t => String (if in_class c then c else "_"%char) (replace_outside_class t)
  end.

(** Property read [v.k] for a key that no prototype defines ([userPhone],
    [timestamp], [message]): own property of an object, [undefined] on the
    other values, a [TypeError] on [null] and [undefined]. *)
Definition get (v : value) (k : string) : result value :=
  match v with
  | VUndefined =>
      inl (TypeError ("Cannot read properties of undefined (reading '" +:+ k +:+ "')"))
  | VNull =>
      inl (TypeError ("Cannot read properties of null (reading '" +:+ k +:+ "')"))
  | VObj ps =>
      match assoc k ps with
      | Some x => inr x
      | None => inr VUndefined
      end
  | _ => inr VUndefined
  end.

Definition q : string := String dquote "".

(** ** Plain objects used as dictionaries *)

(** The own properties of an object created by [{}], in creation order. *)
Definition obj (A : Type) : Type := list (string * A).

(** The properties every plain object inherits from [Object.prototype]. *)
Definition Object_prototype_keys : list string :=
  [ "constructor"; "__defineGetter__"; "__defineSetter__"; "hasOwnProperty";
    "__lookupGetter__"; "__lookupSetter__"; "isPrototypeOf";
    "propertyIsEnumerable"; "toString"; "valueOf"; "__proto__";
    "toLocaleString" ].

Definition inherited (k : string) : bool :=
  existsb (String.eqb k) Object_prototype_keys.

(** What [o[k]] evaluates to: an own property, a property found on the
    prototype (a function, or the prototype itself for [__proto__]), or
    [undefined]. *)
Inductive lookup_result (A : Type) : Type :=
| Own (a : A)
| Inherited
| Undefined.
Arguments Own {A} a.
Arguments Inherited {A}.
Arguments Undefined {A}.

Definition obj_get {A} (o : obj A) (k : string) : lookup_result A :=
  match assoc k o with
  | Some a => Own a
  | None => if inherited k then Inherited else Undefined
  end.

(** Arrays, functions and objects are truthy; [undefined] is not. *)
Definition truthy {A} (r : lookup_result A) : bool :=
  match r with
  | Own _ => true
  | Inherited => true
  | Undefined => false
  end.

(** [o[k] = a] for a key that is not an accessor of the prototype: an
    existing own property keeps its place, a new one goes last. *)
Fixpoint obj_set {A} (k : string) (a : A) (o : obj A) : obj A :=
  match o with
  | [] => [(k, a)]
  | (k', a') :: t =>
      if String.eqb k k' then (k, a) :: t else (k', a') :: obj_set k a t
  end.

(** Array indices: the canonical decimal numerals of 0 .. 2^32 - 2. *)
Definition digit (c : ascii) : option N :=
  let n := N_of_ascii c in
  if ((48 <=? n) && (n <=? 57))%N then Some (n - 48)%N else None.

Fixpoint digits (acc : N) (s : string) : option N :=
  match s with
  | "" => Some acc
  | String c t =>
      match digit c with
      | Some d => digits (10 * acc + d)%N t
      | None => None
      end
  end.

Definition array_index (s : string) : option N :=
  match s with
  | "" => None
  | String "0" "" => Some 0%N
  | String "0" _ => None
  | _ =>
      match digits 0 s with
      | Some n => if (n <=? 4294967294)%N then Some n else None
      | None => None
      end
  end.

Definition is_index (s : string) : bool :=
  match array_index s with
  | Some _ => true
  | None => false
  end.

Fixpoint insert_by_index (x : N * string) (l : list (N * string)) : list (N * string) :=
  match l with
  | [] => [x]
  | y :: t => if (fst x <=? fst y)%N then x :: l else y :: insert_by_index x t
  end.

Fixpoint sort_by_index (l : list (N * string)) : list (N * string) :=
  match l with
  | [] => []
  | x :: t => insert_by_index x (sort_by_index t)
  end.

Fixpoint index_keys (ks : list string) : list (N * string) :=
  match ks with
  | [] => []
  | k :: t =>
      match array_index k with
      | Some n => (n, k) :: index_keys t
      | None => index_keys t
      end
  end.

(** [Object.keys(o)]: the array-index keys in ascending numeric order, then
    the other keys in creation order. *)
Definition order_keys (ks : list string) : list string :=
  map snd (sort_by_index (index_keys ks))
  ++ List.filter (fun k => negb (is_index k)) ks.

Definition Object_keys {A} (o : obj A) : list string :=
  order_keys (map fst o).

(** ** Grouping the rows by [userPhone] *)

(** The property key [row.userPhone] is used as. *)
Definition userPhone_key (row : value) : result string :=
  rbind (get row "userPhone") ToString.

(** One iteration of
      [if (!userGroups[row.userPhone]) userGroups[row.userPhone] = [];]
      [userGroups[row.userPhone].push(row);] *)
Definition group_row (userGroups : obj (list value)) (row : value)
  : result (obj (list value)) :=
  rbind (userPhone_key row) (fun k =>
    let userGroups :=
      if negb (truthy (obj_get userGroups k)) then obj_set k [] userGroups
      else userGroups in
    match obj_get userGroups k with
    | Own rows => inr (obj_set k (rows ++ [row]) userGroups)
    | Inherited =>
        inl (TypeError "userGroups[row.userPhone].push is not a function")
    | Undefined =>
        inl (TypeError "Cannot read properties of undefined (reading 'push')")
    end).

Fixpoint group_rows (userGroups : obj (list value)) (rawData : list value)
  : result (obj (list value)) :=
  match rawData with
  | [] => inr userGroups
  | row :: rest =>
      match group_row userGroups row with
      | inl e => inl e
      | inr userGroups => group_rows userGroups rest
      end
  end.

(** ** Staging documents *)

(** [m.timestamp.replace(/[^a-zA-Z0-9_-]/g, "_")]: only a string has a
    [replace] method. *)
Definition document_id (m : value) : result string :=
  rbind (get m "timestamp") (fun ts =>
    match ts with
    | VStr s => inr (replace_outside_class s)
    | VUndefined =>
        inl (TypeError "Cannot read properties of undefined (reading 'replace')")
    | VNull =>
        inl (TypeError "Cannot read properties of null (reading 'replace')")
    | _ => inl (TypeError "m.timestamp.replace is not a function")
    end).

(** [JSON.stringify({ id: ..., content: m.message, structData: m })]. *)
Definition document_line (m : value) : result string :=
  rbind (document_id m) (fun id =>
  rbind (get m "message") (fun content =>
    inr (JSON_stringify
           (VObj [("id", VStr id); ("content", content); ("structData", m)])))).

(** [rows.map(...).join("\n") + "\n"]. *)
Definition jsonlContent (rows : list value) : result string :=
  rbind (rmap document_line rows) (fun lines => inr (join nl lines +:+ nl)).

(** ** The outside world *)

Definition PROJECT_ID : string := "gcp-steve-123".
Definition LOCATION : string := "global".
Definition BUCKET : string := "vertex-ai-search-bucket-123".

(** The three POST requests the program sends to the indexing service. *)
Inductive request : Type :=
| DataStoresCreate (datastoreId : string)
| EnginesCreate (searchAppId datastoreId : string)
| DocumentsImport (datastoreId gcsPath : string).

Definition service : string :=
  "https://discoveryengine.googleapis.com/v1/projects/" +:+ PROJECT_ID
  +:+ "/locations/" +:+ LOCATION.

Definition request_url (r : request) : string :=
  match r with
  | DataStoresCreate datastoreId =>
      service +:+ "/dataStores?dataStoreId=" +:+ datastoreId
  | EnginesCreate searchAppId _ =>
      service +:+ "/collections/default_collection/engines?engineId=" +:+ searchAppId
  | DocumentsImport datastoreId _ =>
      service +:+ "/dataStores/" +:+ datastoreId
      +:+ "/branches/default_branch/documents:import"
  end.

Definition request_body (r : request) : string :=
  JSON_stringify
    match r with
    | DataStoresCreate datastoreId =>
        VObj [("displayName", VStr ("Datastore for " +:+ datastoreId));
              ("industryVertical", VStr "GENERIC");
              ("contentConfig", VStr "CONTENT_REQUIRED")]
    | EnginesCreate searchAppId datastoreId =>
        VObj [("displayName", VStr ("Search App for " +:+ searchAppId));
              ("dataStoreIds", VArr [VStr datastoreId]);
              ("solutionType", VStr "SOLUTION_TYPE_SEARCH")]
    | DocumentsImport _ gcsPath =>
        VObj [("gcsSource", VObj [("inputUris", VArr [VStr gcsPath])]);
              ("reconciliationMode", VStr "INCREMENTAL")]
    end.

(** Calls that leave the program. *)
Inductive call : Type :=
| GetToken
| DateNow
| Fetch (token : string) (r : request)
| BucketUpload (localPath destination : string)
| WriteFileSync (path data : string)
| UnlinkSync (path : string).

Inductive outcome : Type :=
| Threw (e : exn)
| Returned
| ReturnedToken (token : string)
| ReturnedTime (t : N)
| Responded (ok : bool) (text : string).

(** A log entry.  [ev_tenant] is the value of the loop variable [userPhone]
    when the call was made ([None] outside the loop). *)
Record event : Type := Event {
  ev_tenant : option string;
  ev_call : call;
  ev_outcome : outcome
}.

(** The environment: every answer may depend on all earlier calls. *)
Record oracle : Type := Oracle {
  getAccessToken : list event -> result string;
  Date_now : list event -> N;
  http : list event -> string -> request -> result (bool * string);
  bucket_upload : list event -> string -> string -> result unit;
  fs_writeFileSync : list event -> string -> string -> result unit;
  fs_unlinkSync : list event -> string -> result unit;
  os_tmpdir : string;
  path_join : string -> string -> string
}.

(** The process: the log of calls, the local files it has written, the
    module-level object [userDatastores], and the current loop variable. *)
Record state : Type := State {
  history : list event;
  files : gmap string string;
  userDatastores : obj (string * string);
  tenant : option string
}.

Definition M (A : Type) : Type := state -> result A * state.

Definition ret {A} (a : A) : M A := fun s => (inr a, s).

Definition throw {A} (e : exn) : M A := fun s => (inl e, s).

Definition lift {A} (r : result A) : M A := fun s => (r, s).

Definition bind {A B} (m : M A) (k : A -> M B) : M B :=
  fun s =>
    match m s with
    | (inl e, s') => (inl e, s')
    | (inr a, s') => k a s'
    end.

Notation "x <- c1 ;; c2" := (bind c1 (fun x => c2))
  (at level 100, c1 at next level, right associativity).

Definition logged (c : call) (o : outcome) (s : state) : state :=
  State (history s ++ [Event (tenant s) c o]) (files s) (userDatastores s) (tenant s).

Definition set_files (f : gmap string string) (s : state) : state :=
  State (history s) f (userDatastores s) (tenant s).

Definition set_userDatastores (r : obj (string * string)) (s : state) : state :=
  State (history s) (files s) r (tenant s).

Definition set_tenant (u : option string) : M unit :=
  fun s => (inr tt, State (history s) (files s) (userDatastores s) u).

Section Program.

Variable E : oracle.

(** A call whose result is only completion or an exception. *)
Definition perform (c : call) (r : result unit) : M unit :=
  fun s =>
    match r with
    | inl e => (inl e, logged c (Threw e) s)
    | inr _ => (inr tt, logged c Returned s)
    end.

Definition now : M N :=
  fun s =>
    let t := Date_now E (history s) in
    (inr t, logged DateNow (ReturnedTime t) s).

Definition fetch (token : string) (r : request) : M (bool * string) :=
  fun s =>
    match http E (history s) token r with
    | inl e => (inl e, logged (Fetch token r) (Threw e) s)
    | inr (ok, text) => (inr (ok, text), logged (Fetch token r) (Responded ok text) s)
    end.

Definition writeFileSync (path data : string) : M unit :=
  fun s =>
    match fs_writeFileSync E (history s) path data with
    | inl e => (inl e, logged (WriteFileSync path data) (Threw e) s)
    | inr _ =>
        (inr tt,
         logged (WriteFileSync path data) Returned
           (set_files (<[path := data]> (files s)) s))
    end.

Definition unlinkSync (path : string) : M unit :=
  fun s =>
    match fs_unlinkSync E (history s) path with
    | inl e => (inl e, logged (UnlinkSync path) (Threw e) s)
    | inr _ =>
        (inr tt,
         logged (UnlinkSync path) Returned (set_files (delete path (files s)) s))
    end.

(** *** The helpers of [server.js] *)

Definition getToken : M string :=
  fun s =>
    match getAccessToken E (history s) with
    | inl e => (inl e, logged GetToken (Threw e) s)
    | inr t => (inr t, logged GetToken (ReturnedToken t) s)
    end.

Definition createDataStore (token datastoreId : string) : M unit :=
  res <- fetch token (DataStoresCreate datastoreId) ;;
  if fst res then ret tt else throw (Error (snd res)).

Definition createSearchApp (token searchAppId datastoreId : string) : M unit :=
  res <- fetch token (EnginesCreate searchAppId datastoreId) ;;
  if fst res then ret tt else throw (Error (snd res)).

Definition uploadFileToGCS (localPath destFileName prefix : string) : M string :=
  let gcsDest := prefix +:+ "/" +:+ destFileName in
  _ <- (fun s => perform (BucketUpload localPath gcsDest)
                   (bucket_upload E (history s) localPath gcsDest) s) ;;
  ret ("gs://" +:+ BUCKET +:+ "/" +:+ gcsDest).

Definition importData (token datastoreId gcsPath : string) : M unit :=
  res <- fetch token (DocumentsImport datastoreId gcsPath) ;;
  if fst res then ret tt else throw (Error (snd res)).

(** *** [processInputFile] *)

Definition userFilePath (userPhone : string) : string :=
  path_join E (os_tmpdir E) (userPhone +:+ "-messages.jsonl").

(** [userGroups[userPhone].map(...)]: every key of [Object.keys] is an own
    property; the other cases are what the engine would do. *)
Definition group_of (userGroups : obj (list value)) (userPhone : string)
  : result (list value) :=
  match obj_get userGroups userPhone with
  | Own rows => inr rows
  | Inherited =>
      inl (TypeError "userGroups[userPhone].map is not a function")
  | Undefined =>
      inl (TypeError "Cannot read properties of undefined (reading 'map')")
  end.

(** The body of the loop over [Object.keys(userGroups)]. *)
Definition tenant_run (token : string) (userGroups : obj (list value))
    (userPhone : string) : M unit :=
  _ <- set_tenant (Some userPhone) ;;
  t1 <- now ;;
  let datastoreId :=
    "datastore-" +:+ userPhone +:+ "-" +:+ Number_toString (Z.of_N t1) in
  t2 <- now ;;
  let searchAppId :=
    "searchapp-" +:+ userPhone +:+ "-" +:+ Number_toString (Z.of_N t2) in
  _ <- createDataStore token datastoreId ;;
  _ <- createSearchApp token searchAppId datastoreId ;;
  _ <- (fun s => (inr tt,
          set_userDatastores
            (obj_set userPhone (datastoreId, searchAppId) (userDatastores s)) s)) ;;
  content <- lift (rbind (group_of userGroups userPhone) jsonlContent) ;;
  _ <- writeFileSync (userFilePath userPhone) content ;;
  gcsPath <- uploadFileToGCS (userFilePath userPhone) "messages.jsonl" userPhone ;;
  _ <- importData token datastoreId gcsPath ;;
  unlinkSync (userFilePath userPhone).

Fixpoint for_of (keys : list string) (body : string -> M unit) : M unit :=
  match keys with
  | [] => ret tt
  | k :: rest => _ <- body k ;; for_of rest body
  end.

(** [rawData] is what [JSON.parse(fs.readFileSync(inputFile, "utf-8"))]
    evaluates to: the rows of the parsed array, or the exception of the read
    or of the parse. *)
Definition processInputFile (rawData : result (list value)) : M unit :=
  _ <- set_tenant None ;;
  rawData <- lift rawData ;;
  userGroups <- lift (group_rows [] rawData) ;;
  token <- getToken ;;
  for_of (Object_keys userGroups) (tenant_run token userGroups).

(** *** [POST /api/process] *)

Record response : Type := Response {
  status : N;
  body : value
}.

Definition api_process (rawData : result (list value)) (s : state)
  : response * state :=
  match processInputFile rawData s with
  | (inr _, s') =>
      (Response 200
         (VObj [("success", VBool true); ("message", VStr "Processed all users!")]),
       s')
  | (inl err, s') =>
      (Response 500 (VObj [("error", VStr (message err))]), s')
  end.

End Program.

Definition initial : state := State [] ∅ [] None.

(** * Vocabulary of the properties *)

(** ** Groups and orders *)

(** The rows of a batch whose [userPhone] converts to the key [k]. *)
Definition has_key (k : string) (row : value) : bool :=
  match userPhone_key row with
  | inr k' => String.eqb k' k
  | inl _ => false
  end.

Definition rows_of (k : string) (rawData : list value) : list value :=
  List.filter (has_key k) rawData.

(** The distinct elements of a list, in the order of their first occurrence. *)
Fixpoint first_occurrences (ks : list string) : list string :=
  match ks with
  | [] => []
  | k :: t => k :: List.filter (fun k' => negb (String.eqb k' k)) (first_occurrences t)
  end.

Definition mem (k : string) (l : list string) : bool :=
  existsb (String.eqb k) l.

Definition ascending (l : list (N * string)) : Prop :=
  forall i j a b, l !! i = Some a -> l !! j = Some b -> i <= j -> (fst a <= fst b)%N.

(** ** Lines and characters *)

Fixpoint occurs (c : ascii) (s : string) : bool :=
  match s with
  | "" => false
  | String d t => Ascii.eqb c d || occurs c t
  end.

(** Newline-terminated lines, one after the other. *)
Fixpoint unlines (ls : list string) : string :=
  match ls with
  | [] => ""
  | l :: t => l +:+ nl +:+ unlines t
  end.

(** The characters the document-id pattern lets through, written out. *)
Definition allowed_chars : string :=
  "ABCDEFGHIJKLMNOPQRSTUVWXYZabcdefghijklmnopqrstuvwxyz0123456789_-".

Definition sanitize_char (c : ascii) : ascii :=
  if occurs c allowed_chars then c else "_"%char.

Section value_induction.

Variable P : value -> Prop.
Hypothesis Hundefined : P VUndefined.
Hypothesis Hnull : P VNull.
Hypothesis Hbool : forall b, P (VBool b).
Hypothesis Hnum : forall n, P (VNum n).
Hypothesis Hstr : forall s, P (VStr s).
Hypothesis Harr : forall l, Forall P l -> P (VArr l).
Hypothesis Hobj : forall ps, Forall (fun kv => P (snd kv)) ps -> P (VObj ps).

Fixpoint value_induction (v : value) : P v :=
  match v with
  | VUndefined => Hundefined
  | VNull => Hnull
  | VBool b => Hbool b
  | VNum n => Hnum n
  | VStr s => Hstr s
  | VArr l =>
      Harr l
        ((fix go (l : list value) : Forall P l :=
            match l with
            | [] => @List.Forall_nil _ P
            | x :: t => @List.Forall_cons _ P x t (value_induction x) (go t)
            end) l)
  | VObj ps =>
      Hobj ps
        ((fix go (ps : list (string * value)) : Forall (fun kv => P (snd kv)) ps :=
            match ps with
            | [] => @List.Forall_nil _ _
            | kv :: t => @List.Forall_cons _ _ kv t (value_induction (snd kv)) (go t)
            end) ps)
  end.

End value_induction.

(** ** Timestamps *)

Definition string_timestamp (m : value) : bool :=
  match get m "timestamp" with
  | inr (VStr _) => true
  | _ => false
  end.

(** ** One user's run, and the loop, as relations *)

Definition datastoreId_of (userPhone : string) (t : N) : string :=
  "datastore-" +:+ userPhone +:+ "-" +:+ Number_toString (Z.of_N t).

Definition searchAppId_of (userPhone : string) (t : N) : string :=
  "searchapp-" +:+ userPhone +:+ "-" +:+ Number_toString (Z.of_N t).

Definition gcsDest_of (userPhone : string) : string :=
  userPhone +:+ "/" +:+ "messages.jsonl".

Definition gcsPath_of (userPhone : string) : string :=
  "gs://" +:+ BUCKET +:+ "/" +:+ gcsDest_of userPhone.

(** How a [fetch] makes its caller throw: it rejects, or the response is
    not [ok] and the caller throws an [Error] with the response text. *)
Inductive fetch_fails : outcome -> exn -> Prop :=
| fetch_rejects e : fetch_fails (Threw e) e
| fetch_not_ok text : fetch_fails (Responded false text) (Error text).

(** The exception a logged outcome makes the program throw, if any. *)
Definition failed (o : outcome) : option exn :=
  match o with
  | Threw e => Some e
  | Responded false text => Some (Error text)
  | _ => None
  end.

Section Relations.

Variable E : oracle.
Variable token : string.
Variable userGroups : obj (list value).

Definition ev (u : string) (c : call) (o : outcome) : event := Event (Some u) c o.

(** The log of a run that got both resources created. *)
Definition provisioned (u : string) (t1 t2 : N) (x y : string) : list event :=
  [ ev u DateNow (ReturnedTime t1);
    ev u DateNow (ReturnedTime t2);
    ev u (Fetch token (DataStoresCreate (datastoreId_of u t1))) (Responded true x);
    ev u (Fetch token (EnginesCreate (searchAppId_of u t2) (datastoreId_of u t1)))
      (Responded true y) ].

Definition registered (u : string) (t1 t2 : N) (s : state) : obj (string * string) :=
  obj_set u (datastoreId_of u t1, searchAppId_of u t2) (userDatastores s).

Definition staged (u : string) : result string :=
  rbind (group_of userGroups u) jsonlContent.

(** [step u s new r s']: the run for [u] started in [s] logs [new], ends in
    [s'] and returns or throws [r].  One constructor per way out. *)
Inductive step (u : string) (s : state) : list event -> result unit -> state -> Prop :=
| step_createDataStore t1 t2 o e new :
    fetch_fails o e ->
    new = [ ev u DateNow (ReturnedTime t1);
            ev u DateNow (ReturnedTime t2);
            ev u (Fetch token (DataStoresCreate (datastoreId_of u t1))) o ] ->
    step u s new (inl e)
      (State (history s ++ new) (files s) (userDatastores s) (Some u))
| step_createSearchApp t1 t2 x o e new :
    fetch_fails o e ->
    new = [ ev u DateNow (ReturnedTime t1);
            ev u DateNow (ReturnedTime t2);
            ev u (Fetch token (DataStoresCreate (datastoreId_of u t1))) (Responded true x);
            ev u (Fetch token (EnginesCreate (searchAppId_of u t2) (datastoreId_of u t1))) o ] ->
    step u s new (inl e)
      (State (history s ++ new) (files s) (userDatastores s) (Some u))
| step_staging t1 t2 x y e new :
    staged u = inl e ->
    new = provisioned u t1 t2 x y ->
    step u s new (inl e)
      (State (history s ++ new) (files s) (registered u t1 t2 s) (Some u))
| step_writeFileSync t1 t2 x y content e new :
    staged u = inr content ->
    new = provisioned u t1 t2 x y
          ++ [ ev u (WriteFileSync (userFilePath E u) content) (Threw e) ] ->
    step u s new (inl e)
      (State (history s ++ new) (files s) (registered u t1 t2 s) (Some u))
| step_upload t1 t2 x y content e new :
    staged u = inr content ->
    new = provisioned u t1 t2 x y
          ++ [ ev u (WriteFileSync (userFilePath E u) content) Returned;
               ev u (BucketUpload (userFilePath E u) (gcsDest_of u)) (Threw e) ] ->
    step u s new (inl e)
      (State (history s ++ new) (<[userFilePath E u := content]> (files s))
         (registered u t1 t2 s) (Some u))
| step_importData t1 t2 x y content o e new :
    staged u = inr content ->
    fetch_fails o e ->
    new = provisioned u t1 t2 x y
          ++ [ ev u (WriteFileSync (userFilePath E u) content) Returned;
               ev u (BucketUpload (userFilePath E u) (gcsDest_of u)) Returned;
               ev u (Fetch token (DocumentsImport (datastoreId_of u t1) (gcsPath_of u))) o ] ->
    step u s new (inl e)
      (State (history s ++ new) (<[userFilePath E u := content]> (files s))
         (registered u t1 t2 s) (Some u))
| step_unlinkSync t1 t2 x y z content e new :
    staged u = inr content ->
    new = provisioned u t1 t2 x y
          ++ [ ev u (WriteFileSync (userFilePath E u) content) Returned;
               ev u (BucketUpload (userFilePath E u) (gcsDest_of u)) Returned;
               ev u (Fetch token (DocumentsImport (datastoreId_of u t1) (gcsPath_of u)))
                 (Responded true z);
               ev u (UnlinkSync (userFilePath E u)) (Threw e) ] ->
    step u s new (inl e)
      (State (history s ++ new) (<[userFilePath E u := content]> (files s))
         (registered u t1 t2 s) (Some u))
| step_completed t1 t2 x y z content new :
    staged u = inr content ->
    new = provisioned u t1 t2 x y
          ++ [ ev u (WriteFileSync (userFilePath E u) content) Returned;
               ev u (BucketUpload (userFilePath E u) (gcsDest_of u)) Returned;
               ev u (Fetch token (DocumentsImport (datastoreId_of u t1) (gcsPath_of u)))
                 (Responded true z);
               ev u (UnlinkSync (userFilePath E u)) Returned ] ->
    step u s new (inr tt)
      (State (history s ++ new)
         (delete (userFilePath E u) (<[userFilePath E u := content]> (files s)))
         (registered u t1 t2 s) (Some u)).

(** The loop over the keys: the log comes in one segment per user started. *)
Inductive loop : list string -> state -> list (string * list event) ->
                 result unit -> state -> Prop :=
| loop_done s : loop [] s [] (inr tt) s
| loop_abort u rest s new e s' :
    step u s new (inl e) s' ->
    loop (u :: rest) s [(u, new)] (inl e) s'
| loop_continue u rest s new s1 segments r s' :
    step u s new (inr tt) s1 ->
    loop rest s1 segments r s' ->
    loop (u :: rest) s ((u, new) :: segments) r s'.

End Relations.

(** The events of all segments, in order. *)
Definition flatten (segments : list (string * list event)) : list event :=
  concat (map snd segments).

(** [processInputFile] as a relation: where it can stop before the loop,
    and the loop. *)
Inductive run (E : oracle) (rawData : result (list value)) (s : state)
  : list event -> result unit -> state -> Prop :=
| run_input e :
    rawData = inl e ->
    run E rawData s [] (inl e)
      (State (history s) (files s) (userDatastores s) None)
| run_grouping rows e :
    rawData = inr rows ->
    group_rows [] rows = inl e ->
    run E rawData s [] (inl e)
      (State (history s) (files s) (userDatastores s) None)
| run_getToken rows userGroups e :
    rawData = inr rows ->
    group_rows [] rows = inr userGroups ->
    run E rawData s [Event None GetToken (Threw e)] (inl e)
      (State (history s ++ [Event None GetToken (Threw e)])
         (files s) (userDatastores s) None)
| run_loop rows userGroups token segments r s' :
    rawData = inr rows ->
    group_rows [] rows = inr userGroups ->
    loop E token userGroups (Object_keys userGroups)
      (State (history s ++ [Event None GetToken (ReturnedToken token)])
         (files s) (userDatastores s) None)
      segments r s' ->
    run E rawData s
      (Event None GetToken (ReturnedToken token) :: flatten segments) r s'.

(** The events one call of [processInputFile] adds to the log. *)
Definition log_of (E : oracle) (rawData : result (list value)) (s : state)
  : list event :=
  drop (length (history s)) (history (snd (processInputFile E rawData s))).

(** ** Sample batches and environments *)

Definition row (userPhone timestamp message : string) : value :=
  VObj [("userPhone", VStr userPhone); ("timestamp", VStr timestamp);
        ("message", VStr message)].

(** Every call succeeds; the clock advances with the log. *)
Definition cooperative_env : oracle :=
  Oracle (fun _ => inr "token")
         (fun h => (1700000000000 + N.of_nat (length h))%N)
         (fun _ _ _ => inr (true, "{}"))
         (fun _ _ _ => inr tt)
         (fun _ _ _ => inr tt)
         (fun _ _ => inr tt)
         "/tmp"
         (fun dir file => dir +:+ "/" +:+ file).

(** The indexing service refuses to create the search app of user [B]. *)
Definition refusing_env : oracle :=
  Oracle (fun _ => inr "token")
         (fun h => (1700000000000 + N.of_nat (length h))%N)
         (fun _ _ r =>
            match r with
            | EnginesCreate searchAppId _ =>
                if String.prefix "searchapp-B-" searchAppId
                then inr (false, "quota exceeded")
                else inr (true, "{}")
            | _ => inr (true, "{}")
            end)
         (fun _ _ _ => inr tt)
         (fun _ _ _ => inr tt)
         (fun _ _ => inr tt)
         "/tmp"
         (fun dir file => dir +:+ "/" +:+ file).

(** The bucket upload fails. *)
Definition offline_bucket_env : oracle :=
  Oracle (fun _ => inr "token")
         (fun h => (1700000000000 + N.of_nat (length h))%N)
         (fun _ _ _ => inr (true, "{}"))
         (fun _ _ _ => inl (Error "upload failed"))
         (fun _ _ _ => inr tt)
         (fun _ _ => inr tt)
         "/tmp"
         (fun dir file => dir +:+ "/" +:+ file).

(** An environment in which no call fails. *)
Definition cooperative (E : oracle) : Prop :=
  (forall h, exists token, getAccessToken E h = inr token) /\
  (forall h token r, exists text, http E h token r = inr (true, text)) /\
  (forall h localPath destination, bucket_upload E h localPath destination = inr tt) /\
  (forall h path data, fs_writeFileSync E h path data = inr tt) /\
  (forall h path, fs_unlinkSync E h path = inr tt).

(** The users for whom index creation was requested, in log order. *)
Fixpoint runs (log : list event) : list string :=
  match log with
  | [] => []
  | Event (Some u) (Fetch _ (DataStoresCreate _)) _ :: t => u :: runs t
  | _ :: t => runs t
  end.

Definition batch_ABC : list value :=
  [row "A" "2024-01-01T00:00:00Z" "hi"; row "B" "2024-01-02T00:00:00Z" "yo";
   row "C" "2024-01-03T00:00:00Z" "hey"].

Definition batch_u1_u2 : list value :=
  [row "u1" "2024-01-01T00:00:00Z" "hi"; row "u1" "2024-01-01T00:00:01Z" "yo";
   row "u2" "2024-01-02T00:00:00Z" "hey"].

Definition batch_same_id : list value :=
  [row "u1" "2024-01-01 10:00" "first"; row "u1" "2024-01-01.10:00" "second"].

Definition batch_2_1 : list value :=
  [row "2" "2024-01-01T00:00:00Z" "hi"; row "1" "2024-01-02T00:00:00Z" "yo"].

Definition batch_u1 : list value :=
  [row "u1" "2024-01-01T00:00:00Z" "hi"].

Definition batch_missing_timestamp : list value :=
  [row "u1" "2024-01-01T00:00:00Z" "hi";
   VObj [("userPhone", VStr "u2"); ("message", VStr "no timestamp")];
   row "u3" "2024-01-03T00:00:00Z" "hey"].

(** ** Counting and filtering *)

(** The number of rows held by all the groups of an object. *)
Fixpoint total (userGroups : obj (list value)) : nat :=
  match userGroups with
  | [] => 0
  | (_, rows) :: t => length rows + total t
  end.

(** The events logged while the loop variable was [u]. *)
Definition labelled (u : string) (x : event) : bool :=
  match ev_tenant x with
  | Some v => String.eqb v u
  | None => false
  end.

Definition calls_of (u : string) (log : list event) : list call :=
  map ev_call (List.filter (labelled u) log).

(** Two states of the process that differ at most in the registry. *)
Definition same_but_registry (s1 s2 : state) : Prop :=
  history s1 = history s2 /\ files s1 = files s2 /\ tenant s1 = tenant s2.

(** A row without a timestamp whose key is a property plain objects inherit. *)
Definition batch_inherited_key : list value :=
  [VObj [("userPhone", VStr "constructor"); ("message", VStr "m")]].

(** * Tactics *)

(** Taking an explicit list apart at an element. *)
Ltac explode H :=
  repeat match type of H with
  | [] = ?a ++ _ :: _ => destruct a; discriminate H
  | _ :: _ = ?a ++ _ :: _ =>
      destruct a as [|? a]; simpl in H;
      [ inversion H; subst; clear H | injection H as ? H; subst ]
  end.

(** * Properties *)

(** ** JSON text and string conversion, on examples *)

Example stringify_ex :
  JSON_stringify
    (VObj [("a", VNum (-12)); ("b", VUndefined);
           ("c", VArr [VStr ("x" +:+ nl); VUndefined; VBool true])])
  = "{" +:+ q +:+ "a" +:+ q +:+ ":-12," +:+ q +:+ "c" +:+ q +:+ ":["
    +:+ q +:+ "x\n" +:+ q +:+ ",null,true]}".
Proof. reflexivity. Qed.

Example tostring_ex :
  ToString (VArr [VNum 1; VNull; VArr [VStr "a"; VNum 0]; VObj []])
  = inr "1,,a,0,[object Object]".
Proof. reflexivity. Qed.

(** ** Objects as dictionaries *)

Lemma assoc_obj_set_eq {A} k (a : A) o : assoc k (obj_set k a o) = Some a.
Proof.
  induction o as [|[k' a'] t IH]; simpl.
  - now rewrite String.eqb_refl.
  - destruct (String.eqb k k') eqn:Hk; simpl.
    + now rewrite String.eqb_refl.
    + now rewrite Hk.
Qed.

Lemma assoc_obj_set_ne {A} k k' (a : A) o :
  k <> k' -> assoc k' (obj_set k a o) = assoc k' o.
Proof.
  intros Hne. induction o as [|[k1 a1] t IH]; simpl.
  - destruct (String.eqb_spec k' k); congruence.
  - destruct (String.eqb_spec k k1) as [->|Hk1]; simpl.
    + destruct (String.eqb_spec k' k1); congruence.
    + destruct (String.eqb_spec k' k1); congruence.
Qed.

Lemma assoc_None_keys {A} k (o : obj A) :
  assoc k o = None <-> ~ In k (map fst o).
Proof.
  induction o as [|[k' a'] t IH]; simpl.
  - tauto.
  - destruct (String.eqb_spec k k') as [->|Hk].
    + split; [discriminate | tauto].
    + rewrite IH. split; [intros H [?|?]; [congruence | tauto] | tauto].
Qed.

Lemma assoc_Some_keys {A} k (o : obj A) a :
  assoc k o = Some a -> In k (map fst o).
Proof.
  intros H. destruct (in_dec string_dec k (map fst o)) as [|Hn]; [assumption|].
  apply assoc_None_keys in Hn. congruence.
Qed.

Lemma keys_obj_set {A} k (a : A) o :
  map fst (obj_set k a o) =
  match assoc k o with
  | Some _ => map fst o
  | None => map fst o ++ [k]
  end.
Proof.
  induction o as [|[k' a'] t IH]; simpl; [reflexivity|].
  destruct (String.eqb_spec k k') as [->|Hk]; simpl; [reflexivity|].
  rewrite IH. now destruct (assoc k t).
Qed.

Lemma obj_set_twice {A} k (a b : A) o :
  obj_set k a (obj_set k b o) = obj_set k a o.
Proof.
  induction o as [|[k' a'] t IH]; simpl.
  - now rewrite String.eqb_refl.
  - destruct (String.eqb k k') eqn:Hk; simpl.
    + now rewrite String.eqb_refl.
    + now rewrite Hk, IH.
Qed.

(** ** The partition computed by [group_rows] *)

Lemma mem_In k l : mem k l = true <-> In k l.
Proof.
  unfold mem. rewrite existsb_exists. split.
  - intros (x & Hx & He). apply String.eqb_eq in He. now subst.
  - intros H. exists k. split; [assumption | apply String.eqb_refl].
Qed.

Lemma mem_false k l : mem k l = false <-> ~ In k l.
Proof.
  rewrite <- mem_In. destruct (mem k l); split; intros; congruence.
Qed.

Lemma inherited_In k : inherited k = true <-> In k Object_prototype_keys.
Proof. apply mem_In. Qed.

Lemma group_row_inv g row g' :
  group_row g row = inr g' ->
  exists k,
    userPhone_key row = inr k /\
    match assoc k g with
    | Some rows => g' = obj_set k (rows ++ [row]) g
    | None => inherited k = false /\ g' = obj_set k [row] g
    end.
Proof.
  unfold group_row, rbind. destruct (userPhone_key row) as [e|k]; [discriminate|].
  intros H. exists k. split; [reflexivity|].
  unfold obj_get in H. destruct (assoc k g) as [rows|] eqn:Hk; simpl in H.
  - rewrite ?Hk in H. now inversion H.
  - destruct (inherited k) eqn:Hi; simpl in H.
    + rewrite ?Hk, ?Hi in H. discriminate.
    + rewrite ?assoc_obj_set_eq in H. inversion H. split; [reflexivity|].
      simpl. apply obj_set_twice.
Qed.

Lemma filter_filter_mem (seen : list string) k l :
  List.filter (fun x => negb (mem x (seen ++ [k]))) l =
  List.filter (fun x => negb (mem x seen))
    (List.filter (fun k' => negb (String.eqb k' k)) l).
Proof.
  induction l as [|x t IH]; simpl; [reflexivity|].
  unfold mem at 1. rewrite existsb_app. simpl. rewrite orb_false_r.
  fold (mem x seen).
  destruct (String.eqb x k) eqn:Hx; simpl.
  - rewrite orb_true_r. simpl. apply IH.
  - rewrite orb_false_r. destruct (mem x seen); simpl; now rewrite IH.
Qed.

Lemma filter_mem_absorb (seen : list string) k l :
  In k seen ->
  List.filter (fun x => negb (mem x seen))
    (List.filter (fun k' => negb (String.eqb k' k)) l) =
  List.filter (fun x => negb (mem x seen)) l.
Proof.
  intros Hk. induction l as [|x t IH]; simpl; [reflexivity|].
  destruct (String.eqb_spec x k) as [->|Hx]; simpl.
  - apply mem_In in Hk. now rewrite Hk.
  - now rewrite IH.
Qed.

(** What [group_rows] returns, when it returns: every row has a key, no key
    is a property of [Object.prototype] unless the accumulator already held
    it, each group gains the rows with its key in input order, and new keys
    are created in the order in which they are first seen. *)
Lemma group_rows_inv rawData : forall g g',
  group_rows g rawData = inr g' ->
  (exists ks, rmap userPhone_key rawData = inr ks /\
     map fst g' =
     map fst g ++ List.filter (fun k => negb (mem k (map fst g))) (first_occurrences ks)) /\
  (forall k,
     assoc k g' =
     match assoc k g, rows_of k rawData with
     | Some rows, new => Some (rows ++ new)
     | None, [] => None
     | None, new => Some new
     end) /\
  (forall k, In k (map fst g') -> ~ In k (map fst g) -> inherited k = false).
Proof.
  induction rawData as [|row rest IH]; intros g g' H; simpl in H.
  - inversion H; subst. split; [|split].
    + exists []. simpl. now rewrite app_nil_r.
    + intros k. simpl. destruct (assoc k g'); [now rewrite app_nil_r | reflexivity].
    + tauto.
  - destruct (group_row g row) as [e|g1] eqn:Hrow; [discriminate|].
    apply group_row_inv in Hrow. destruct Hrow as (k & Hkey & Hg1).
    destruct (IH _ _ H) as ((ks & Hks & Hkeys) & Hgroups & Hinh).
    assert (Hset : exists a, g1 = obj_set k a g /\
              a = match assoc k g with Some rows => rows ++ [row] | None => [row] end).
    { destruct (assoc k g); [eauto | destruct Hg1; eauto]. }
    destruct Hset as (a & -> & Ha).
    split; [|split].
    + exists (k :: ks). simpl. rewrite Hkey, Hks. split; [reflexivity|].
      rewrite Hkeys, keys_obj_set.
      destruct (assoc k g) as [rows|] eqn:Hk.
      * apply assoc_Some_keys in Hk. pose proof Hk as Hm. apply mem_In in Hm.
        rewrite Hm. simpl. now rewrite filter_mem_absorb.
      * pose proof Hk as Hm. apply assoc_None_keys, mem_false in Hm.
        rewrite Hm. simpl. rewrite <- app_assoc. simpl.
        now rewrite filter_filter_mem.
    + intros k0. rewrite Hgroups.
      assert (Hrows : rows_of k0 (row :: rest) =
                if String.eqb k k0 then row :: rows_of k0 rest else rows_of k0 rest).
      { unfold rows_of. simpl. unfold has_key at 1. now rewrite Hkey. }
      rewrite Hrows.
      destruct (String.eqb_spec k k0) as [->|Hne].
      * rewrite assoc_obj_set_eq. subst a.
        destruct (assoc k0 g); [now rewrite <- app_assoc | reflexivity].
      * rewrite assoc_obj_set_ne by assumption.
        reflexivity.
    + intros k0 Hin Hnot. destruct (String.eqb_spec k k0) as [->|Hne].
      * destruct (assoc k0 g) eqn:Hk; [apply assoc_Some_keys in Hk; tauto|].
        now destruct Hg1.
      * apply Hinh; [assumption|]. rewrite keys_obj_set.
        destruct (assoc k g); [assumption|].
        rewrite in_app_iff. simpl. intuition congruence.
Qed.

(** ** The order of [Object.keys] *)

Lemma insert_by_index_perm x l : Permutation (insert_by_index x l) (x :: l).
Proof.
  induction l as [|y t IH]; simpl; [reflexivity|].
  destruct (fst x <=? fst y)%N; [reflexivity|].
  rewrite IH. apply perm_swap.
Qed.

Lemma sort_by_index_perm l : Permutation (sort_by_index l) l.
Proof.
  induction l as [|x t IH]; simpl; [reflexivity|].
  rewrite insert_by_index_perm. now apply perm_skip.
Qed.

Lemma ascending_cons x l :
  ascending (x :: l) <-> (forall y, In y l -> (fst x <= fst y)%N) /\ ascending l.
Proof.
  split.
  - intros H. split.
    + intros y Hy. apply list_elem_of_In, list_elem_of_lookup in Hy.
      destruct Hy as [i Hi]. apply (H 0 (S i) x y); simpl; auto with lia.
    + intros i j a b Ha Hb Hij. apply (H (S i) (S j) a b); simpl; auto with lia.
  - intros [Hx Hl] i j a b Ha Hb Hij.
    destruct i as [|i]; simpl in Ha.
    + inversion Ha; subst. destruct j as [|j]; simpl in Hb.
      * inversion Hb; subst. lia.
      * apply Hx, list_elem_of_In, list_elem_of_lookup. eauto.
    + destruct j as [|j]; [lia|]. simpl in Hb. apply (Hl i j); auto with lia.
Qed.

Lemma insert_by_index_ascending x l :
  ascending l -> ascending (insert_by_index x l).
Proof.
  induction l as [|y t IH]; simpl; intros Hl.
  - apply ascending_cons. split; [intros ? []|]. intros i j a b Ha. now destruct i.
  - destruct (fst x <=? fst y)%N eqn:Hxy.
    + apply N.leb_le in Hxy. apply ascending_cons. split; [|assumption].
      apply ascending_cons in Hl. destruct Hl as [Hy _].
      intros z [<-|Hz]; [assumption|]. specialize (Hy z Hz). lia.
    + apply N.leb_gt in Hxy. apply ascending_cons in Hl. destruct Hl as [Hy Ht].
      apply ascending_cons. split; [|now apply IH].
      intros z Hz. apply (Permutation_in _ (insert_by_index_perm x t)) in Hz.
      destruct Hz as [<-|Hz]; [lia | now apply Hy].
Qed.

Lemma sort_by_index_ascending l : ascending (sort_by_index l).
Proof.
  induction l as [|x t IH]; simpl.
  - intros i j a b Ha. now destruct i.
  - now apply insert_by_index_ascending.
Qed.

Lemma index_keys_snd ks :
  map snd (index_keys ks) = List.filter is_index ks.
Proof.
  induction ks as [|k t IH]; simpl; [reflexivity|].
  unfold is_index at 1. destruct (array_index k); simpl; now rewrite ?IH.
Qed.

Lemma index_keys_fst ks p :
  In p (index_keys ks) -> array_index (snd p) = Some (fst p).
Proof.
  induction ks as [|k t IH]; simpl; [tauto|].
  destruct (array_index k) eqn:Hk; [|assumption].
  intros [<-|H]; [assumption | now apply IH].
Qed.

Lemma order_keys_perm ks : Permutation (order_keys ks) ks.
Proof.
  unfold order_keys. rewrite sort_by_index_perm, index_keys_snd.
  induction ks as [|k t IH]; simpl; [reflexivity|].
  destruct (is_index k); simpl.
  - now apply perm_skip.
  - rewrite <- Permutation_middle. now apply perm_skip.
Qed.

Lemma order_keys_In k ks : In k (order_keys ks) <-> In k ks.
Proof.
  split; apply Permutation_in; [|symmetry]; apply order_keys_perm.
Qed.

Lemma order_keys_NoDup ks : List.NoDup ks -> List.NoDup (order_keys ks).
Proof.
  intros H. eapply Permutation_NoDup; [symmetry; apply order_keys_perm | assumption].
Qed.

Lemma order_keys_no_index ks :
  (forall k, In k ks -> is_index k = false) -> order_keys ks = ks.
Proof.
  intros H. unfold order_keys.
  assert (Hi : index_keys ks = []).
  { induction ks as [|k t IH]; simpl; [reflexivity|].
    pose proof (H k (or_introl eq_refl)) as Hk. unfold is_index in Hk.
    destruct (array_index k); [discriminate|]. apply IH. intros; apply H; now right. }
  rewrite Hi. simpl.
  induction ks as [|k t IH]; simpl; [reflexivity|].
  rewrite (H k (or_introl eq_refl)). simpl. f_equal. apply IH.
  - intros; apply H; now right.
  - simpl in Hi. destruct (array_index k); [discriminate | assumption].
Qed.

Lemma first_occurrences_In k ks : In k (first_occurrences ks) <-> In k ks.
Proof.
  induction ks as [|x t IH]; simpl; [tauto|].
  rewrite filter_In, IH. destruct (String.eqb_spec k x) as [->|Hne]; simpl.
  - intuition.
  - intuition congruence.
Qed.

Lemma NoDup_filter {A} (f : A -> bool) l : List.NoDup l -> List.NoDup (List.filter f l).
Proof.
  induction 1 as [|x l Hx Hl IH]; simpl; [constructor|].
  destruct (f x); [|assumption]. constructor; [|assumption].
  rewrite filter_In. tauto.
Qed.

Lemma first_occurrences_NoDup ks : List.NoDup (first_occurrences ks).
Proof.
  induction ks as [|x t IH]; simpl; constructor.
  - rewrite filter_In, String.eqb_refl. simpl. intros [_ ?]; discriminate.
  - now apply NoDup_filter.
Qed.

Lemma filter_true {A} (f : A -> bool) l :
  (forall x, In x l -> f x = true) -> List.filter f l = l.
Proof.
  induction l as [|x t IH]; simpl; intros H; [reflexivity|].
  rewrite (H x (or_introl eq_refl)). f_equal. apply IH. intros; apply H; now right.
Qed.

(** The partition of a whole batch, starting from the empty object. *)
Lemma group_rows_batch rawData userGroups :
  group_rows [] rawData = inr userGroups ->
  exists ks,
    rmap userPhone_key rawData = inr ks /\
    map fst userGroups = first_occurrences ks /\
    (forall k, assoc k userGroups =
               match rows_of k rawData with
               | [] => None
               | rows => Some rows
               end) /\
    (forall k, In k (map fst userGroups) -> inherited k = false).
Proof.
  intros H. apply group_rows_inv in H. destruct H as ((ks & Hks & Hkeys) & Hg & Hinh).
  exists ks. simpl in *. split; [assumption|]. split; [|split].
  - rewrite Hkeys. now apply filter_true.
  - intros k. now rewrite Hg.
  - intros k Hk. apply Hinh; tauto.
Qed.

Lemma group_keys_NoDup rawData userGroups :
  group_rows [] rawData = inr userGroups -> List.NoDup (Object_keys userGroups).
Proof.
  intros H. apply group_rows_batch in H. destruct H as (ks & _ & Hk & _).
  unfold Object_keys. rewrite Hk. apply order_keys_NoDup, first_occurrences_NoDup.
Qed.

(** ** Strings, lines and the JSON text *)

Lemma append_cons c (a b : string) : String c a +:+ b = String c (a +:+ b).
Proof. reflexivity. Qed.

Lemma append_nil (b : string) : "" +:+ b = b.
Proof. reflexivity. Qed.

Lemma occurs_append c a b : occurs c (a +:+ b) = occurs c a || occurs c b.
Proof.
  induction a as [|d t IH]; [reflexivity|].
  rewrite append_cons. simpl. now rewrite IH, orb_assoc.
Qed.

Lemma append_assoc (a b c : string) : (a +:+ b) +:+ c = a +:+ (b +:+ c).
Proof.
  induction a as [|d t IH]; [reflexivity|]. now rewrite !append_cons, IH.
Qed.

Lemma join_unlines l ls : join nl (l :: ls) +:+ nl = unlines (l :: ls).
Proof.
  revert l. induction ls as [|x t IH]; intros l.
  - reflexivity.
  - change (join nl (l :: x :: t)) with (l +:+ nl +:+ join nl (x :: t)).
    rewrite !append_assoc, IH. reflexivity.
Qed.

Lemma occurs_join c sep l :
  occurs c sep = false ->
  Forall (fun s => occurs c s = false) l ->
  occurs c (join sep l) = false.
Proof.
  intros Hsep. induction 1 as [|x t Hx Ht IH]; [reflexivity|].
  destruct t as [|y t']; [assumption|].
  change (join sep (x :: y :: t')) with (x +:+ sep +:+ join sep (y :: t')).
  now rewrite !occurs_append, Hx, Hsep, IH.
Qed.

Lemma in_class_allowed c : in_class c = occurs c allowed_chars.
Proof. destruct c as [[] [] [] [] [] [] [] []]; reflexivity. Qed.

Lemma escape_char_no_newline c : occurs newline (escape_char c) = false.
Proof. destruct c as [[] [] [] [] [] [] [] []]; reflexivity. Qed.

Lemma quote_no_newline s : occurs newline (quote s) = false.
Proof.
  unfold quote. simpl. rewrite occurs_append. simpl. rewrite orb_false_r.
  induction s as [|c t IH]; simpl; [reflexivity|].
  now rewrite occurs_append, escape_char_no_newline, IH.
Qed.

Lemma Number_toString_no_newline n : occurs newline (Number_toString n) = false.
Proof.
  assert (H : forall d, occurs newline (NilEmpty.string_of_uint d) = false).
  { induction d; simpl; auto. }
  assert (H0 : forall d, occurs newline (NilZero.string_of_uint d) = false).
  { intros d. destruct d; simpl; auto; apply H. }
  unfold Number_toString. destruct (Z.to_int n); simpl; auto.
Qed.

Lemma JSON_stringify_no_newline v : occurs newline (JSON_stringify v) = false.
Proof.
  induction v using value_induction; simpl; try reflexivity.
  - now destruct b.
  - apply Number_toString_no_newline.
  - apply quote_no_newline.
  - rewrite append_nil, occurs_append.
    rewrite occurs_join; [reflexivity | reflexivity |].
    induction H; simpl; constructor; assumption.
  - rewrite append_nil, occurs_append.
    rewrite occurs_join; [reflexivity | reflexivity |].
    induction H as [|[k x] t Hx Ht IH]; simpl; [constructor|].
    assert (Hm : occurs newline (quote k +:+ ":" +:+ JSON_stringify x) = false).
    { rewrite !occurs_append, quote_no_newline. simpl in *. now rewrite Hx. }
    destruct x; try (constructor; assumption). assumption.
Qed.

Lemma replace_outside_class_length s :
  String.length (replace_outside_class s) = String.length s.
Proof. induction s as [|c t IH]; simpl; [reflexivity | now rewrite IH]. Qed.

Lemma replace_outside_class_get s i :
  String.get i (replace_outside_class s) = option_map sanitize_char (String.get i s).
Proof.
  revert i. induction s as [|c t IH]; intros i; simpl; [reflexivity|].
  destruct i as [|i]; simpl; [|apply IH].
  unfold sanitize_char. now rewrite in_class_allowed.
Qed.

(** ** The staged content *)

Lemma In_lookup {A} (x : A) (l : list A) : In x l -> exists i, l !! i = Some x.
Proof.
  intros H. apply list_elem_of_lookup. now apply list_elem_of_In.
Qed.

Lemma rmap_inr {A B} (f : A -> result B) l ys :
  rmap f l = inr ys ->
  length ys = length l /\
  forall i x, l !! i = Some x -> exists y, f x = inr y /\ ys !! i = Some y.
Proof.
  revert ys. induction l as [|x t IH]; simpl; intros ys H.
  - inversion H. split; [reflexivity|]. intros i x Hi. now destruct i.
  - destruct (f x) as [e|y] eqn:Hx; [discriminate|].
    destruct (rmap f t) as [e|ys'] eqn:Ht; [discriminate|].
    inversion H; subst. destruct (IH _ eq_refl) as [Hlen Hnth].
    split; [simpl; now rewrite Hlen|].
    intros [|i] x0 Hi; simpl in *; [inversion Hi; subst; eauto | eauto].
Qed.

Lemma rmap_total {A B} (f : A -> result B) l :
  (forall x, In x l -> exists y, f x = inr y) -> exists ys, rmap f l = inr ys.
Proof.
  induction l as [|x t IH]; simpl; intros H; [eauto|].
  destruct (H x (or_introl eq_refl)) as [y ->].
  destruct IH as [ys ->]; [intros; apply H; now right | eauto].
Qed.

Lemma rmap_inl {A B} (f : A -> result B) l e :
  rmap f l = inl e -> exists x, In x l /\ f x = inl e.
Proof.
  induction l as [|x t IH]; simpl; [discriminate|].
  destruct (f x) as [e'|y] eqn:Hx.
  - intros H; inversion H; subst. eauto.
  - destruct (rmap f t) as [e'|ys]; [|discriminate].
    intros H; inversion H; subst. destruct (IH eq_refl) as (x0 & ? & ?). eauto.
Qed.

Lemma document_id_string m :
  string_timestamp m = true ->
  exists ts, get m "timestamp" = inr (VStr ts) /\
             document_id m = inr (replace_outside_class ts).
Proof.
  unfold string_timestamp, document_id, rbind.
  destruct (get m "timestamp") as [e|[]]; try discriminate. eauto.
Qed.

Lemma document_id_not_string m :
  string_timestamp m = false -> exists msg, document_id m = inl (TypeError msg).
Proof.
  unfold string_timestamp, document_id, rbind, get.
  destruct m; simpl; eauto; try discriminate.
  destruct (assoc "timestamp" props) as [[]|]; eauto; discriminate.
Qed.

Lemma get_after_get m k x k' : get m k = inr x -> exists y, get m k' = inr y.
Proof.
  unfold get. destruct m; try discriminate; eauto.
  intros _. destruct (assoc k' props); eauto.
Qed.

Lemma document_line_inr m line :
  document_line m = inr line <->
  exists ts content,
    get m "timestamp" = inr (VStr ts) /\
    get m "message" = inr content /\
    line = JSON_stringify
             (VObj [("id", VStr (replace_outside_class ts));
                    ("content", content); ("structData", m)]).
Proof.
  unfold document_line, rbind. split.
  - destruct (string_timestamp m) eqn:Hts.
    + destruct (document_id_string m Hts) as (ts & Hg & ->).
      destruct (get m "message") as [e|content]; [discriminate|].
      intros H; inversion H. eauto.
    + destruct (document_id_not_string m Hts) as (msg & ->). discriminate.
  - intros (ts & content & Hts & Hmsg & ->).
    unfold document_id, rbind. now rewrite Hts, Hmsg.
Qed.

Lemma document_line_inl m e :
  document_line m = inl e ->
  string_timestamp m = false /\ exists msg, e = TypeError msg.
Proof.
  unfold document_line, rbind. destruct (string_timestamp m) eqn:Hts.
  - destruct (document_id_string m Hts) as (ts & Hg & ->).
    destruct (get_after_get m _ _ "message" Hg) as [y ->]. discriminate.
  - destruct (document_id_not_string m Hts) as (msg & ->).
    intros H; inversion H. eauto.
Qed.

(** The content built for a non-empty group, when it is built: one
    newline-terminated line per row, in the order of the rows. *)
Lemma jsonlContent_lines rows content :
  rows <> [] ->
  jsonlContent rows = inr content ->
  exists lines,
    rmap document_line rows = inr lines /\
    content = unlines lines /\
    length lines = length rows /\
    Forall (fun l => occurs newline l = false) lines.
Proof.
  unfold jsonlContent, rbind. intros Hne.
  destruct (rmap document_line rows) as [e|lines] eqn:Hmap; [discriminate|].
  intros H; inversion H; subst. exists lines.
  destruct (rmap_inr _ _ _ Hmap) as [Hlen Hnth].
  split; [reflexivity|]. split; [|split; [assumption|]].
  - destruct lines as [|l ls]; [|apply join_unlines].
    destruct rows; [congruence | discriminate].
  - apply Forall_forall. intros l Hl.
    apply list_elem_of_lookup in Hl. destruct Hl as [i Hi].
    assert (Hlt : i < length rows) by (rewrite <- Hlen; eapply lookup_lt_Some; eauto).
    apply lookup_lt_is_Some in Hlt. destruct Hlt as [m Hm].
    destruct (Hnth _ _ Hm) as (y & Hy & Hi'). rewrite Hi in Hi'. inversion Hi'; subst.
    apply document_line_inr in Hy. destruct Hy as (ts & c & _ & _ & ->).
    apply JSON_stringify_no_newline.
Qed.

Lemma jsonlContent_total rows :
  (forall m, In m rows -> string_timestamp m = true) ->
  exists content, jsonlContent rows = inr content.
Proof.
  intros H. unfold jsonlContent, rbind.
  destruct (rmap_total document_line rows) as [lines ->]; [|eauto].
  intros m Hm. destruct (document_id_string m (H m Hm)) as (ts & Hg & Hid).
  destruct (get_after_get m _ _ "message" Hg) as [c Hc].
  eexists. apply document_line_inr. eauto.
Qed.

Lemma jsonlContent_throws rows :
  (exists m, In m rows /\ string_timestamp m = false) ->
  exists msg, jsonlContent rows = inl (TypeError msg).
Proof.
  intros (m & Hm & Hts). unfold jsonlContent, rbind.
  destruct (rmap document_line rows) as [e|lines] eqn:Hmap.
  - apply rmap_inl in Hmap. destruct Hmap as (x & _ & Hx).
    apply document_line_inl in Hx. destruct Hx as (_ & msg & ->). eauto.
  - apply rmap_inr in Hmap. destruct Hmap as [_ Hnth].
    apply In_lookup in Hm. destruct Hm as [i Hi].
    destruct (Hnth _ _ Hi) as (y & Hy & _).
    apply document_line_inr in Hy. destruct Hy as (ts & c & Hg & _).
    unfold string_timestamp in Hts. rewrite Hg in Hts. discriminate.
Qed.

(** ** The program satisfies its relations *)

Lemma tenant_run_step E token userGroups u s :
  exists new,
    step E token userGroups u s new (fst (tenant_run E token userGroups u s))
      (snd (tenant_run E token userGroups u s)).
Proof.
  unfold tenant_run, bind, set_tenant, now, createDataStore, createSearchApp,
    importData, uploadFileToGCS, fetch, writeFileSync, unlinkSync, perform,
    lift, ret, throw, bind, logged, set_userDatastores, set_files.
  cbn [history files userDatastores tenant fst snd].
  set (t1 := Date_now E (history s)).
  set (e1 := Event (Some u) DateNow (ReturnedTime t1)).
  set (t2 := Date_now E (history s ++ [e1])).
  set (e2 := Event (Some u) DateNow (ReturnedTime t2)).
  fold (datastoreId_of u t1). fold (searchAppId_of u t2).
  destruct (http E ((history s ++ [e1]) ++ [e2]) token
              (DataStoresCreate (datastoreId_of u t1))) as [e|[[] x]] eqn:Hds;
    cbn [history files userDatastores tenant fst snd].
  2:{ destruct (http E _ token (EnginesCreate _ _)) as [e|[[] y]] eqn:Happ;
        cbn [history files userDatastores tenant fst snd].
      2:{ fold (staged userGroups u). destruct (staged userGroups u) as [e|content] eqn:Hst;
            cbn [history files userDatastores tenant fst snd].
          2:{ destruct (fs_writeFileSync E _ _ _) as [e|[]] eqn:Hw;
                cbn [history files userDatastores tenant fst snd].
              2:{ fold (gcsDest_of u).
                  destruct (bucket_upload E _ _ _) as [e|[]] eqn:Hup;
                    cbn [history files userDatastores tenant fst snd].
                  2:{ fold (gcsPath_of u).
                      destruct (http E _ token (DocumentsImport _ _)) as [e|[[] z]] eqn:Him;
                        cbn [history files userDatastores tenant fst snd].
                      2:{ destruct (fs_unlinkSync E _ _) as [e|[]] eqn:Hun;
                            cbn [history files userDatastores tenant fst snd].
                          - eexists. rewrite <- !app_assoc. cbn [app].
                            eapply (step_unlinkSync E token userGroups u s t1 t2 x y z content e); eauto.
                          - eexists. rewrite <- !app_assoc. cbn [app].
                            eapply (step_completed E token userGroups u s t1 t2 x y z content); eauto. }
                      + eexists. rewrite <- !app_assoc. cbn [app].
                        eapply (step_importData E token userGroups u s t1 t2 x y content (Threw e) e);
                          eauto using fetch_fails.
                      + eexists. rewrite <- !app_assoc. cbn [app].
                        eapply (step_importData E token userGroups u s t1 t2 x y content (Responded false z));
                          eauto using fetch_fails. }
                  eexists. rewrite <- !app_assoc. cbn [app].
                  eapply (step_upload E token userGroups u s t1 t2 x y content e); eauto. }
              eexists. rewrite <- !app_assoc. cbn [app].
              eapply (step_writeFileSync E token userGroups u s t1 t2 x y content e); eauto. }
          eexists. rewrite <- !app_assoc. cbn [app].
          eapply (step_staging E token userGroups u s t1 t2 x y e); eauto. }
      - eexists. rewrite <- !app_assoc. cbn [app].
        eapply (step_createSearchApp E token userGroups u s t1 t2 x (Threw e) e); eauto using fetch_fails.
      - eexists. rewrite <- !app_assoc. cbn [app].
        eapply (step_createSearchApp E token userGroups u s t1 t2 x (Responded false y));
          eauto using fetch_fails. }
  - eexists. rewrite <- !app_assoc. cbn [app].
    eapply (step_createDataStore E token userGroups u s t1 t2 (Threw e) e); eauto using fetch_fails.
  - eexists. rewrite <- !app_assoc. cbn [app].
    eapply (step_createDataStore E token userGroups u s t1 t2 (Responded false x)); eauto using fetch_fails.
Qed.

Lemma for_of_loop E token userGroups keys : forall s,
  exists segments,
    loop E token userGroups keys s segments
      (fst (for_of keys (tenant_run E token userGroups) s))
      (snd (for_of keys (tenant_run E token userGroups) s)).
Proof.
  induction keys as [|u rest IH]; intros s.
  - exists []. apply loop_done.
  - destruct (tenant_run_step E token userGroups u s) as [new Hstep].
    cbn [for_of]. unfold bind.
    destruct (tenant_run E token userGroups u s) as [[e|[]] s1]; cbn [fst snd] in *.
    + exists [(u, new)]. now apply loop_abort.
    + destruct (IH s1) as [segments Hloop].
      exists ((u, new) :: segments). eapply loop_continue; eauto.
Qed.

Lemma step_history E token userGroups u s new r s' :
  step E token userGroups u s new r s' ->
  history s' = history s ++ new /\ tenant s' = Some u.
Proof. destruct 1; auto. Qed.

Lemma step_labels E token userGroups u s new r s' :
  step E token userGroups u s new r s' ->
  forall x, In x new -> ev_tenant x = Some u.
Proof.
  destruct 1; subst; unfold provisioned, ev; simpl; intros a Ha;
    repeat (destruct Ha as [<-|Ha]; [reflexivity|]); destruct Ha.
Qed.

Lemma loop_history E token userGroups keys s segments r s' :
  loop E token userGroups keys s segments r s' ->
  history s' = history s ++ flatten segments.
Proof.
  unfold flatten. induction 1; simpl.
  - now rewrite app_nil_r.
  - apply step_history in H. rewrite app_nil_r. tauto.
  - apply step_history in H. destruct H as [H _].
    rewrite IHloop, H. now rewrite app_assoc.
Qed.

Lemma loop_others E token userGroups keys s segments r s' :
  loop E token userGroups keys s segments r s' ->
  (forall p, files s !! p = None -> r = inr tt -> files s' !! p = None) /\
  (segments = [] -> s' = s).
Proof.
  induction 1.
  - auto.
  - split; [discriminate | discriminate].
  - split; [|discriminate]. intros p Hp Hr. apply IHloop; [|assumption].
    inversion H; subst; cbn [files].
    destruct (decide (userFilePath E u = p)) as [->|Hne].
    + apply lookup_delete_eq.
    + rewrite lookup_delete_ne, lookup_insert_ne by assumption. assumption.
Qed.

(** The keys started are a prefix of the keys; all of them when the loop
    returns, and the last one is the user in hand when it throws. *)
Lemma loop_keys E token userGroups keys s segments r s' :
  loop E token userGroups keys s segments r s' ->
  match r with
  | inr _ => map fst segments = keys
  | inl _ =>
      exists done u rest,
        keys = done ++ u :: rest /\ map fst segments = done ++ [u] /\
        tenant s' = Some u
  end.
Proof.
  induction 1; simpl.
  - reflexivity.
  - exists [], u, rest. apply step_history in H. simpl. tauto.
  - destruct r as [e|[]].
    + destruct IHloop as (done & v & rest' & -> & Hm & Ht).
      exists (u :: done), v, rest'. simpl. now rewrite Hm.
    + now rewrite IHloop.
Qed.

Lemma loop_segments E token userGroups keys s segments r s' :
  loop E token userGroups keys s segments r s' ->
  Forall (fun seg => exists s0 r0 s1,
            step E token userGroups (fst seg) s0 (snd seg) r0 s1) segments.
Proof.
  induction 1; repeat constructor; simpl; eauto.
Qed.

Lemma run_history E rawData s new r s' :
  run E rawData s new r s' -> history s' = history s ++ new.
Proof.
  destruct 1; simpl; rewrite ?app_nil_r; try reflexivity.
  apply loop_history in H1. rewrite H1. simpl. now rewrite <- app_assoc.
Qed.

Lemma processInputFile_run E rawData s :
  run E rawData s (log_of E rawData s)
    (fst (processInputFile E rawData s)) (snd (processInputFile E rawData s)).
Proof.
  assert (H : exists new, run E rawData s new
                (fst (processInputFile E rawData s))
                (snd (processInputFile E rawData s))).
  { unfold processInputFile, bind, set_tenant, lift, getToken, logged.
    cbn [history files userDatastores tenant].
    destruct rawData as [e|rows]; cbn [fst snd].
    - eexists. now apply run_input.
    - destruct (group_rows [] rows) as [e|userGroups] eqn:Hg; cbn [fst snd].
      + eexists. eapply run_grouping; eauto.
      + destruct (getAccessToken E (history s)) as [e|token] eqn:Ht; cbn [fst snd].
        * eexists. eapply run_getToken; eauto.
        * destruct (for_of_loop E token userGroups (Object_keys userGroups)
                      (State (history s ++ [Event None GetToken (ReturnedToken token)])
                         (files s) (userDatastores s) None)) as [segments Hloop].
          eexists. eapply run_loop; eauto. }
  destruct H as [new H]. pose proof (run_history _ _ _ _ _ _ H) as Hh.
  unfold log_of. rewrite Hh, drop_app_length. exact H.
Qed.

Lemma concat_split {A} (L : list (list A)) l1 x l2 :
  concat L = l1 ++ x :: l2 ->
  exists L1 a1 a2 L2,
    L = L1 ++ (a1 ++ x :: a2) :: L2 /\ l1 = concat L1 ++ a1 /\ l2 = a2 ++ concat L2.
Proof.
  revert l1. induction L as [|seg L IH]; intros l1 H; simpl in H.
  - now destruct l1.
  - revert l1 H. induction seg as [|y seg IHseg]; intros l1 H; simpl in H.
    + destruct (IH _ H) as (L1 & a1 & a2 & L2 & -> & -> & ->).
      exists ([] :: L1), a1, a2, L2. auto.
    + destruct l1 as [|z l1]; simpl in H; inversion H; subst.
      * exists [], [], seg, L. auto.
      * destruct (IHseg _ H2) as (L1 & a1 & a2 & L2 & HL & -> & ->).
        destruct L1 as [|seg1 L1]; simpl in HL; inversion HL; subst.
        -- exists [], (z :: a1), a2, L2. auto.
        -- exists ((z :: seg1) :: L1), a1, a2, L2. auto.
Qed.

Lemma flatten_split segments l1 x l2 :
  flatten segments = l1 ++ x :: l2 ->
  exists S1 u a1 a2 S2,
    segments = S1 ++ (u, a1 ++ x :: a2) :: S2 /\
    l1 = flatten S1 ++ a1 /\ l2 = a2 ++ flatten S2.
Proof.
  unfold flatten. intros H. apply concat_split in H.
  destruct H as (L1 & a1 & a2 & L2 & HL & -> & ->).
  apply map_eq_app in HL.
  destruct HL as (S1 & S2' & -> & <- & HS2).
  destruct S2' as [|[u new] S2]; simpl in HS2; inversion HS2; subst.
  exists S1, u, a1, a2, S2. auto.
Qed.

Lemma flatten_In segments x :
  In x (flatten segments) <-> exists u new, In (u, new) segments /\ In x new.
Proof.
  unfold flatten. rewrite in_concat. split.
  - intros (l & Hl & Hx). apply in_map_iff in Hl.
    destruct Hl as ([u new] & <- & Hin). eauto.
  - intros (u & new & Hin & Hx). exists new. split; [|assumption].
    apply in_map_iff. exists (u, new). auto.
Qed.

Lemma loop_step_of E token userGroups keys s segments r s' u new :
  loop E token userGroups keys s segments r s' ->
  In (u, new) segments ->
  exists s0 r0 s1, step E token userGroups u s0 new r0 s1.
Proof.
  intros H Hin. apply loop_segments in H. rewrite List.Forall_forall in H.
  apply (H _ Hin).
Qed.

Lemma loop_started E token userGroups keys s segments r s' :
  loop E token userGroups keys s segments r s' ->
  exists rest, keys = map fst segments ++ rest.
Proof.
  intros H. apply loop_keys in H. destruct r as [e|[]].
  - destruct H as (done & u & rest & -> & -> & _). exists rest.
    now rewrite <- app_assoc.
  - exists []. now rewrite app_nil_r.
Qed.

Lemma NoDup_later {A} (l1 : list A) x l2 v :
  List.NoDup (l1 ++ x :: l2) -> In v l2 -> ~ In v (l1 ++ [x]).
Proof.
  induction l1 as [|y t IH]; simpl; intros Hnd Hv.
  - inversion Hnd; subst. intros [<-|[]]. tauto.
  - inversion Hnd; subst. intros [<-|Hin].
    + apply H1. apply in_app_iff. right. now right.
    + now apply (IH H2 Hv).
Qed.

(** * The claims *)

(** ** Failure of a batch *)

Lemma step_failed_call E token userGroups u s new r s' a1 x a2 e :
  step E token userGroups u s new r s' ->
  new = a1 ++ x :: a2 ->
  failed (ev_outcome x) = Some e ->
  a2 = [] /\ r = inl e.
Proof.
  intros Hstep Hnew Hf.
  destruct Hstep; subst new; unfold provisioned, ev in *; simpl in Hnew;
    explode Hnew; simpl in Hf; try discriminate;
    try (match goal with H : fetch_fails _ _ |- _ => inversion H; subst end);
    simpl in Hf; inversion Hf; subst; auto.
Qed.

Lemma loop_failed_call E token userGroups keys s segments r s' :
  loop E token userGroups keys s segments r s' ->
  forall l1 x l2 e,
    flatten segments = l1 ++ x :: l2 ->
    failed (ev_outcome x) = Some e ->
    l2 = [] /\ r = inl e.
Proof.
  unfold flatten. induction 1; intros l1 x l2 e0 Hsplit Hf; simpl in Hsplit.
  - now destruct l1.
  - rewrite app_nil_r in Hsplit. eapply step_failed_call; eauto.
  - apply app_eq_app in Hsplit. destruct Hsplit as [l [[Hnew Hrest]|[Hl1 Hrest]]].
    + destruct l as [|y l].
      * simpl in Hrest. apply (IHloop [] x l2 e0); [now symmetry | assumption].
      * simpl in Hrest. inversion Hrest; subst.
        destruct (step_failed_call _ _ _ _ _ _ _ _ _ _ _ _ H eq_refl Hf) as [_ Habs].
        discriminate.
    + apply (IHloop l x l2 e0); assumption.
Qed.

(** C1.  A call that fails (it throws, or the response is not ok) is the
    last call of the batch, and [processInputFile] throws its exception.
    When [processInputFile] throws, whatever step of whichever user threw,
    [POST /api/process] answers with status 500 and a body holding only the
    message of the exception.  If it threw before the loop no call was made
    for any user; if it threw during the run of user [u], no call and no
    file write was made for any user that comes after [u] in the processing
    order. *)
Theorem batch_aborts_on_first_failure E rawData s e :
  (forall l1 x l2,
     log_of E rawData s = l1 ++ x :: l2 ->
     failed (ev_outcome x) = Some e ->
     l2 = [] /\ fst (processInputFile E rawData s) = inl e) /\
  (fst (processInputFile E rawData s) = inl e ->
   fst (api_process E rawData s)
   = Response 500 (VObj [("error", VStr (message e))]) /\
   match tenant (snd (processInputFile E rawData s)) with
   | None => forall x, In x (log_of E rawData s) -> ev_tenant x = None
   | Some u =>
       exists rows userGroups done rest,
         rawData = inr rows /\
         group_rows [] rows = inr userGroups /\
         Object_keys userGroups = done ++ u :: rest /\
         forall x v, In x (log_of E rawData s) -> In v rest -> ev_tenant x <> Some v
   end).
Proof.
  split.
  { intros l1 x l2 Hlog Hf.
    pose proof (processInputFile_run E rawData s) as Hrun. rewrite Hlog in Hrun.
    remember (l1 ++ x :: l2) as log eqn:Hsplit.
    destruct Hrun as [e0 Hraw|rows e0 Hraw Hg|rows userGroups e0 Hraw Hg
                     |rows userGroups token segments r s' Hraw Hg Hloop].
    - now destruct l1.
    - now destruct l1.
    - destruct l1 as [|? [|? ?]]; try discriminate.
      inversion Hsplit; subst. simpl in Hf. inversion Hf. auto.
    - destruct l1 as [|y l1]; simpl in Hsplit; inversion Hsplit; subst.
      + discriminate.
      + eapply loop_failed_call; eauto. }
  intros He. split.
  - revert He. unfold api_process.
    destruct (processInputFile E rawData s) as [[e'|[]] s']; simpl; intros He;
      [congruence | discriminate].
  - pose proof (processInputFile_run E rawData s) as Hrun. rewrite He in Hrun.
    remember (log_of E rawData s) as log eqn:Hlog. clear Hlog.
    remember (snd (processInputFile E rawData s)) as s' eqn:Hs'. clear Hs' He.
    remember (inl e) as r eqn:Hr.
    destruct Hrun as [e0 Hraw|rows e0 Hraw Hg|rows userGroups e0 Hraw Hg
                     |rows userGroups token segments r s' Hraw Hg Hloop]; simpl.
    + intros x [].
    + intros x [].
    + intros x [<-|[]]. reflexivity.
    + subst r. pose proof (loop_keys _ _ _ _ _ _ _ _ Hloop) as Hkeys. simpl in Hkeys.
      destruct Hkeys as (done & u & rest & Hk & Hm & Ht). rewrite Ht.
      exists rows, userGroups, done, rest. repeat (split; [assumption|]).
      intros x v [<-|Hx] Hv; [discriminate|].
      apply flatten_In in Hx. destruct Hx as (w & new & Hin & Hx).
      destruct (loop_step_of _ _ _ _ _ _ _ _ _ _ Hloop Hin) as (s0 & r0 & s1 & Hstep).
      rewrite (step_labels _ _ _ _ _ _ _ _ Hstep x Hx). intros Heq. inversion Heq; subst w.
      assert (Hw : In v (map fst segments)).
      { apply in_map_iff. exists (v, new). auto. }
      rewrite Hm in Hw. pose proof (group_keys_NoDup _ _ Hg) as Hnd.
      rewrite Hk in Hnd. exact (NoDup_later _ _ _ _ Hnd Hv Hw).
Qed.

Lemma batch_aborts_on_first_failure_witness :
  let log := log_of refusing_env (inr batch_ABC) initial in
  let refused :=
    Event (Some "B")
      (Fetch "token"
         (EnginesCreate "searchapp-B-1700000000010" "datastore-B-1700000000009"))
      (Responded false "quota exceeded") in
  log = firstn 12 log ++ refused :: [] /\
  fst (processInputFile refusing_env (inr batch_ABC) initial)
  = inl (Error "quota exceeded") /\
  fst (api_process refusing_env (inr batch_ABC) initial)
  = Response 500 (VObj [("error", VStr "quota exceeded")]) /\
  exists rows userGroups done rest,
    (inr batch_ABC : result (list value)) = inr rows /\
    group_rows [] rows = inr userGroups /\
    Object_keys userGroups = done ++ "B" :: rest /\
    forall x v, In x log -> In v rest -> ev_tenant x <> Some v.
Proof.
  intros log refused.
  assert (Hlog : log = firstn 12 log ++ refused :: []) by (vm_compute; reflexivity).
  split; [exact Hlog|].
  destruct (batch_aborts_on_first_failure refusing_env (inr batch_ABC) initial
              (Error "quota exceeded")) as [Hlast Hthrown].
  destruct (Hlast (firstn 12 log) refused [] Hlog eq_refl) as [_ Hr].
  split; [exact Hr|].
  exact (Hthrown Hr).
Defined.

(** ** The order of the requests *)

Lemma step_before_EnginesCreate E token userGroups u s new r s'
    a1 u' token' searchAppId datastoreId o a2 :
  step E token userGroups u s new r s' ->
  new = a1 ++ Event (Some u') (Fetch token' (EnginesCreate searchAppId datastoreId)) o :: a2 ->
  exists t1 t2 x,
    a1 = [ ev u' DateNow (ReturnedTime t1); ev u' DateNow (ReturnedTime t2);
           ev u' (Fetch token' (DataStoresCreate datastoreId)) (Responded true x) ].
Proof.
  intros Hstep Hnew. destruct Hstep; subst new; unfold provisioned, ev in *;
    simpl in Hnew; explode Hnew; eauto.
Qed.

Lemma step_before_DocumentsImport E token userGroups u s new r s'
    a1 u' token' datastoreId gcsPath o a2 :
  step E token userGroups u s new r s' ->
  new = a1 ++ Event (Some u') (Fetch token' (DocumentsImport datastoreId gcsPath)) o :: a2 ->
  exists t1 t2 x searchAppId y c,
    a1 = [ ev u' DateNow (ReturnedTime t1); ev u' DateNow (ReturnedTime t2);
           ev u' (Fetch token' (DataStoresCreate datastoreId)) (Responded true x);
           ev u' (Fetch token' (EnginesCreate searchAppId datastoreId)) (Responded true y) ]
         ++ c.
Proof.
  intros Hstep Hnew. destruct Hstep; subst new; unfold provisioned, ev in *;
    simpl in Hnew; explode Hnew; eauto 10.
Qed.

(** The part of the log that precedes an event of a user's segment. *)
Lemma run_split E rawData s log r s' l1 u c o l2 :
  run E rawData s log r s' ->
  log = l1 ++ Event (Some u) c o :: l2 ->
  exists rows token userGroups w s0 new r0 s1 a a1 a2,
    rawData = inr rows /\
    group_rows [] rows = inr userGroups /\
    step E token userGroups w s0 new r0 s1 /\
    new = a1 ++ Event (Some u) c o :: a2 /\
    l1 = a ++ a1.
Proof.
  intros Hrun Hlog.
  destruct Hrun as [e0 Hraw|rows e0 Hraw Hg|rows userGroups e0 Hraw Hg
                   |rows userGroups token segments r s' Hraw Hg Hloop].
  - now destruct l1.
  - now destruct l1.
  - destruct l1 as [|? [|? ?]]; discriminate.
  - destruct l1 as [|x l1]; simpl in Hlog; [discriminate|].
    injection Hlog as <- Hlog. apply flatten_split in Hlog.
    destruct Hlog as (S1 & w & a1 & a2 & S2 & -> & -> & ->).
    assert (Hin : In (w, a1 ++ Event (Some u) c o :: a2)
                    (S1 ++ (w, a1 ++ Event (Some u) c o :: a2) :: S2)).
    { apply in_app_iff. right. now left. }
    destruct (loop_step_of _ _ _ _ _ _ _ _ _ _ Hloop Hin) as (s0 & r0 & s1 & Hstep).
    exists rows, token, userGroups, w, s0, (a1 ++ Event (Some u) c o :: a2), r0, s1,
      (Event None GetToken (ReturnedToken token) :: flatten S1), a1, a2.
    auto 10.
Qed.

(** C2.  In the log of a batch, a search-app creation request of a user is
    preceded by that user's index-creation request for the same index, which
    returned success; an import request for an index is preceded by the
    user's index-creation request for that index and then the user's
    search-app creation request linked to it, both of which returned
    success. *)
Theorem provisioning_precedes_import E rawData s :
  (forall l1 u token searchAppId datastoreId o l2,
     log_of E rawData s =
       l1 ++ Event (Some u) (Fetch token (EnginesCreate searchAppId datastoreId)) o :: l2 ->
     exists a x b,
       l1 = a ++ Event (Some u) (Fetch token (DataStoresCreate datastoreId))
                   (Responded true x) :: b) /\
  (forall l1 u token datastoreId gcsPath o l2,
     log_of E rawData s =
       l1 ++ Event (Some u) (Fetch token (DocumentsImport datastoreId gcsPath)) o :: l2 ->
     exists a x b searchAppId y c,
       l1 = a ++ Event (Some u) (Fetch token (DataStoresCreate datastoreId))
                   (Responded true x)
              :: b ++ Event (Some u) (Fetch token (EnginesCreate searchAppId datastoreId))
                        (Responded true y) :: c).
Proof.
  pose proof (processInputFile_run E rawData s) as Hrun. split.
  - intros l1 u token searchAppId datastoreId o l2 Hlog.
    destruct (run_split _ _ _ _ _ _ _ _ _ _ _ Hrun Hlog)
      as (rows & tok & g & w & s0 & new & r0 & s1 & a & a1 & a2
          & _ & _ & Hstep & Hnew & ->).
    destruct (step_before_EnginesCreate _ _ _ _ _ _ _ _ _ _ _ _ _ _ _ Hstep Hnew)
      as (t1 & t2 & x & ->).
    exists (a ++ [ev u DateNow (ReturnedTime t1); ev u DateNow (ReturnedTime t2)]), x, [].
    now rewrite <- app_assoc.
  - intros l1 u token datastoreId gcsPath o l2 Hlog.
    destruct (run_split _ _ _ _ _ _ _ _ _ _ _ Hrun Hlog)
      as (rows & tok & g & w & s0 & new & r0 & s1 & a & a1 & a2
          & _ & _ & Hstep & Hnew & ->).
    destruct (step_before_DocumentsImport _ _ _ _ _ _ _ _ _ _ _ _ _ _ _ Hstep Hnew)
      as (t1 & t2 & x & searchAppId & y & c & ->).
    exists (a ++ [ev u DateNow (ReturnedTime t1); ev u DateNow (ReturnedTime t2)]),
      x, [], searchAppId, y, c.
    now rewrite <- !app_assoc.
Qed.

Lemma provisioning_precedes_import_witness :
  let log := log_of cooperative_env (inr batch_u1_u2) initial in
  (exists a x b,
     firstn 4 log =
       a ++ Event (Some "u1")
              (Fetch "token" (DataStoresCreate "datastore-u1-1700000000001"))
              (Responded true x) :: b) /\
  (exists a x b searchAppId y c,
     firstn 7 log =
       a ++ Event (Some "u1")
              (Fetch "token" (DataStoresCreate "datastore-u1-1700000000001"))
              (Responded true x)
         :: b ++ Event (Some "u1")
                   (Fetch "token"
                      (EnginesCreate searchAppId "datastore-u1-1700000000001"))
                   (Responded true y) :: c).
Proof.
  intros log. split.
  - apply (proj1 (provisioning_precedes_import cooperative_env (inr batch_u1_u2) initial)
             (firstn 4 log) "u1" "token" "searchapp-u1-1700000000002"
             "datastore-u1-1700000000001" (Responded true "{}") (skipn 5 log)).
    vm_compute. reflexivity.
  - apply (proj2 (provisioning_precedes_import cooperative_env (inr batch_u1_u2) initial)
             (firstn 7 log) "u1" "token" "datastore-u1-1700000000001"
             "gs://vertex-ai-search-bucket-123/u1/messages.jsonl"
             (Responded true "{}") (skipn 8 log)).
    vm_compute. reflexivity.
Defined.

(** ** Grouping *)

(** C3.  The grouping loop does not handle every key: a row whose
    [userPhone] names a property that plain objects inherit makes
    [userGroups[row.userPhone]] truthy before any group exists, no array is
    created, and the [push] throws.  The batch is answered with status 500
    and no call is made. *)
Theorem grouping_throws_on_inherited_key E s :
  let rawData := [row "constructor" "2024-01-01T00:00:00Z" "hi"] in
  group_rows [] rawData
  = inl (TypeError "userGroups[row.userPhone].push is not a function") /\
  fst (api_process E (inr rawData) s)
  = Response 500
      (VObj [("error", VStr "userGroups[row.userPhone].push is not a function")]) /\
  log_of E (inr rawData) s = [].
Proof.
  intros rawData. split; [reflexivity|]. split; [reflexivity|].
  unfold log_of. cbn. now rewrite drop_all.
Qed.

(** ** The content of the staged file *)

(** One user's run when no call fails: it stops at the staging content if
    that throws, and completes otherwise. *)
Lemma tenant_run_cooperative E token userGroups u s :
  cooperative E ->
  exists t1 t2 x y,
    match staged userGroups u with
    | inl e =>
        tenant_run E token userGroups u s
        = (inl e,
           State (history s ++ provisioned token u t1 t2 x y) (files s)
             (registered u t1 t2 s) (Some u))
    | inr content =>
        exists s', tenant_run E token userGroups u s = (inr tt, s')
    end.
Proof.
  intros (Htok & Hhttp & Hup & Hw & Hun).
  unfold tenant_run, bind, set_tenant, now, createDataStore, createSearchApp,
    importData, uploadFileToGCS, fetch, writeFileSync, unlinkSync, perform,
    lift, ret, throw, bind, logged, set_userDatastores, set_files.
  cbn [history files userDatastores tenant fst snd].
  set (t1 := Date_now E (history s)).
  set (e1 := Event (Some u) DateNow (ReturnedTime t1)).
  set (t2 := Date_now E (history s ++ [e1])).
  set (e2 := Event (Some u) DateNow (ReturnedTime t2)).
  fold (datastoreId_of u t1). fold (searchAppId_of u t2).
  destruct (Hhttp ((history s ++ [e1]) ++ [e2]) token
              (DataStoresCreate (datastoreId_of u t1))) as [x Hx].
  rewrite Hx. cbn [history files userDatastores tenant fst snd].
  match goal with
  | |- context [http E ?h token (EnginesCreate ?a ?d)] =>
      destruct (Hhttp h token (EnginesCreate a d)) as [y Hy]; rewrite Hy
  end.
  cbn [history files userDatastores tenant fst snd].
  exists t1, t2, x, y. fold (staged userGroups u).
  destruct (staged userGroups u) as [e|content].
  - cbn [history files userDatastores tenant fst snd].
    rewrite <- !app_assoc. reflexivity.
  - rewrite Hw. cbn [history files userDatastores tenant fst snd].
    rewrite Hup. cbn [history files userDatastores tenant fst snd].
    match goal with
    | |- context [http E ?h token (DocumentsImport ?d ?g)] =>
        destruct (Hhttp h token (DocumentsImport d g)) as [z Hz]; rewrite Hz
    end.
    cbn [history files userDatastores tenant fst snd].
    rewrite Hun. eauto.
Qed.

Lemma staged_group rows userGroups u :
  group_rows [] rows = inr userGroups ->
  In u (Object_keys userGroups) ->
  staged userGroups u = jsonlContent (rows_of u rows).
Proof.
  intros Hg Hu. destruct (group_rows_batch _ _ Hg) as (ks & _ & _ & Hassoc & _).
  unfold Object_keys in Hu. apply (proj1 (order_keys_In _ _)) in Hu.
  unfold staged, group_of, obj_get.
  destruct (assoc u userGroups) as [group|] eqn:Ha.
  - specialize (Hassoc u). rewrite Ha in Hassoc.
    destruct (rows_of u rows); [discriminate|]. now inversion Hassoc.
  - exfalso. apply assoc_None_keys in Ha. apply Ha. exact Hu.
Qed.

Lemma cooperative_env_cooperative : cooperative cooperative_env.
Proof. repeat split; simpl; eauto. Qed.

Lemma for_of_completes E token userGroups keys :
  cooperative E ->
  (forall u, In u keys -> exists content, staged userGroups u = inr content) ->
  forall s, fst (for_of keys (tenant_run E token userGroups) s) = inr tt.
Proof.
  intros Hco. induction keys as [|u rest IH]; intros Hall s; [reflexivity|].
  destruct (tenant_run_cooperative E token userGroups u s Hco) as (t1 & t2 & x & y & H).
  destruct (Hall u (or_introl eq_refl)) as [content Hc]. rewrite Hc in H.
  destruct H as [s1 H]. simpl. unfold bind. rewrite H.
  apply IH. intros v Hv. apply Hall. now right.
Qed.

Lemma loop_completed_steps E token userGroups keys s segments s' :
  loop E token userGroups keys s segments (inr tt) s' ->
  forall u new, In (u, new) segments ->
  exists s0 s1, step E token userGroups u s0 new (inr tt) s1.
Proof.
  remember (inr tt) as r eqn:Hr. induction 1; intros w new' Hin.
  - destruct Hin.
  - discriminate.
  - destruct Hin as [Heq|Hin]; [inversion Heq; subst; eauto | eauto].
Qed.

Lemma step_completed_writes E token userGroups u s new s' :
  step E token userGroups u s new (inr tt) s' ->
  exists data,
    staged userGroups u = inr data /\
    In (Event (Some u) (WriteFileSync (userFilePath E u) data) Returned) new.
Proof.
  inversion 1; subst. exists content. split; [assumption|].
  unfold provisioned, ev. simpl. tauto.
Qed.

Lemma step_WriteFileSync E token userGroups u s new r s' a1 u' path data o a2 :
  step E token userGroups u s new r s' ->
  new = a1 ++ Event (Some u') (WriteFileSync path data) o :: a2 ->
  path = userFilePath E u' /\ staged userGroups u' = inr data.
Proof.
  intros Hstep Hnew. destruct Hstep; subst new; unfold provisioned, ev in *;
    simpl in Hnew; explode Hnew; eauto.
Qed.

(** What is written for a user is the content built from the rows of the
    batch that carry the user's key. *)
Lemma written_data E rows s u path data o :
  In (Event (Some u) (WriteFileSync path data) o) (log_of E (inr rows) s) ->
  path = userFilePath E u /\
  rows_of u rows <> [] /\
  jsonlContent (rows_of u rows) = inr data /\
  exists userGroups,
    group_rows [] rows = inr userGroups /\
    assoc u userGroups = Some (rows_of u rows).
Proof.
  intros Hin. apply in_split in Hin. destruct Hin as (l1 & l2 & Hlog).
  pose proof (processInputFile_run E (inr rows) s) as Hrun.
  destruct (run_split _ _ _ _ _ _ _ _ _ _ _ Hrun Hlog)
    as (rows' & tok & g & w & s0 & new & r0 & s1 & a & a1 & a2
          & Hraw & Hg & Hstep & Hnew & _).
  inversion Hraw; subst rows'.
  destruct (step_WriteFileSync _ _ _ _ _ _ _ _ _ _ _ _ _ _ Hstep Hnew) as [-> Hst].
  split; [reflexivity|].
  destruct (group_rows_batch _ _ Hg) as (ks & _ & _ & Hassoc & _).
  unfold staged, group_of, obj_get, rbind in Hst. specialize (Hassoc u).
  destruct (assoc u g) as [group|] eqn:Hu.
  - destruct (rows_of u rows) as [|m t] eqn:Hrows; [discriminate|].
    inversion Hassoc; subst group. split; [discriminate|]. split; [assumption|].
    exists g. now rewrite Hu.
  - destruct (inherited u); discriminate.
Qed.

(** C4.  The data written to a user's staged file is one newline-terminated
    line per row of the user's group, in the order of the group; the line of
    a row is the JSON text of the object with the fields [id], [content] and
    [structData], where [content] is the row's [message], [structData] the
    row itself, and [id] the row's [timestamp] with every character outside
    A-Z a-z 0-9 _ - replaced by an underscore.  When no call fails and every
    row has a string timestamp, such a file is written for every user of the
    batch. *)
Theorem staged_file_has_one_line_per_row E rows s u :
  (cooperative E ->
   (forall m, In m rows -> string_timestamp m = true) ->
   (exists userGroups,
      group_rows [] rows = inr userGroups /\ In u (Object_keys userGroups)) ->
   exists data,
     In (Event (Some u) (WriteFileSync (userFilePath E u) data) Returned)
        (log_of E (inr rows) s)) /\
  forall path data o,
  In (Event (Some u) (WriteFileSync path data) o) (log_of E (inr rows) s) ->
  path = userFilePath E u /\
  exists lines,
    data = unlines lines /\
    length lines = length (rows_of u rows) /\
    Forall (fun l => occurs newline l = false) lines /\
    forall i m,
      rows_of u rows !! i = Some m ->
      exists timestamp content id,
        get m "timestamp" = inr (VStr timestamp) /\
        get m "message" = inr content /\
        String.length id = String.length timestamp /\
        (forall j, String.get j id = option_map sanitize_char (String.get j timestamp)) /\
        lines !! i
        = Some (JSON_stringify
                  (VObj [("id", VStr id); ("content", content); ("structData", m)])).
Proof.
  split.
  { intros Hco Hall (userGroups & Hg & Hu).
    assert (Hstaged : forall v, In v (Object_keys userGroups) ->
                      exists content, staged userGroups v = inr content).
    { intros v Hv. rewrite (staged_group rows) by assumption.
      apply jsonlContent_total. intros m Hm. apply Hall.
      unfold rows_of in Hm. apply filter_In in Hm. tauto. }
    pose proof Hco as (Htok & _). destruct (Htok (history s)) as [token Htoken].
    assert (Hr : fst (processInputFile E (inr rows) s) = inr tt).
    { unfold processInputFile, bind, set_tenant, lift, getToken, logged.
      cbn [history files userDatastores tenant]. rewrite Hg, Htoken.
      now apply for_of_completes. }
    pose proof (processInputFile_run E (inr rows) s) as Hrun. rewrite Hr in Hrun.
    remember (log_of E (inr rows) s) as log eqn:Hlog. clear Hlog.
    remember (snd (processInputFile E (inr rows) s)) as s' eqn:Hs'. clear Hs' Hr.
    remember (inr tt) as r eqn:Hr.
    destruct Hrun as [e0 Hraw|rows' e0 Hraw Hg'|rows' userGroups' e0 Hraw Hg'
                     |rows' userGroups' token' segments r s' Hraw Hg' Hloop];
      try discriminate.
    subst r. inversion Hraw; subst rows'. rewrite Hg in Hg'. inversion Hg'; subst.
    pose proof (loop_keys _ _ _ _ _ _ _ _ Hloop) as Hk. simpl in Hk.
    rewrite <- Hk in Hu. apply in_map_iff in Hu. destruct Hu as ([w new] & Hw & Hin).
    simpl in Hw. subst w.
    destruct (loop_completed_steps _ _ _ _ _ _ _ Hloop _ _ Hin) as (s0 & s1 & Hstep).
    destruct (step_completed_writes _ _ _ _ _ _ _ Hstep) as (data & _ & Hev).
    exists data. right. apply flatten_In. eauto. }
  intros path data o Hin.
  destruct (written_data _ _ _ _ _ _ _ Hin) as (-> & Hne & Hdata & _).
  split; [reflexivity|].
  destruct (jsonlContent_lines _ _ Hne Hdata) as (lines & Hmap & -> & Hlen & Hnl).
  exists lines. repeat (split; [assumption || reflexivity|]).
  intros i m Hm. destruct (rmap_inr _ _ _ Hmap) as [_ Hnth].
  destruct (Hnth _ _ Hm) as (line & Hline & Hi).
  apply document_line_inr in Hline. destruct Hline as (ts & content & Hts & Hmsg & ->).
  exists ts, content, (replace_outside_class ts).
  repeat (split; [assumption|]). split; [apply replace_outside_class_length|].
  split; [intros j; apply replace_outside_class_get | assumption].
Qed.

Lemma staged_file_has_one_line_per_row_witness :
  exists data lines,
    In (Event (Some "u1") (WriteFileSync "/tmp/u1-messages.jsonl" data) Returned)
       (log_of cooperative_env (inr batch_u1_u2) initial) /\
    data = unlines lines /\
    length lines = 2 /\
    Forall (fun l => occurs newline l = false) lines.
Proof.
  destruct (staged_file_has_one_line_per_row cooperative_env batch_u1_u2 initial "u1")
    as [Hwritten Hcontent].
  destruct Hwritten as [data Hin].
  - exact cooperative_env_cooperative.
  - intros m [<-|[<-|[<-|[]]]]; reflexivity.
  - eexists. split; [reflexivity|]. left. reflexivity.
  - destruct (Hcontent _ _ _ Hin) as (_ & lines & Hdata & Hlen & Hnl & _).
    exists data, lines. split; [exact Hin|]. split; [exact Hdata|].
    split; [exact Hlen | exact Hnl].
Defined.

(** C5, as stated, fails: two rows of one user whose timestamps sanitize to
    the same id are both written, each on its own line. *)
Lemma staged_file_repeats_an_id :
  document_id (row "u1" "2024-01-01 10:00" "first") = inr "2024-01-01_10_00" /\
  document_id (row "u1" "2024-01-01.10:00" "second") = inr "2024-01-01_10_00" /\
  exists first second,
    document_line (row "u1" "2024-01-01 10:00" "first") = inr first /\
    document_line (row "u1" "2024-01-01.10:00" "second") = inr second /\
    first <> second /\
    In (Event (Some "u1")
          (WriteFileSync "/tmp/u1-messages.jsonl" (unlines [first; second])) Returned)
       (log_of cooperative_env (inr batch_same_id) initial).
Proof.
  split; [reflexivity|]. split; [reflexivity|].
  eexists. eexists. split; [reflexivity|]. split; [reflexivity|].
  split; [discriminate|].
  vm_compute. do 5 right. left. reflexivity.
Qed.

(** C5, amended.  When two rows of a user's group have the same document
    id, the data written to the staged file still has one line per row of
    the group: the line of the earlier row and the line of the later row
    both stand at the positions of their rows, with the same id. *)
Theorem staged_file_keeps_rows_with_equal_ids E rows s u path data o i j mi mj id :
  In (Event (Some u) (WriteFileSync path data) o) (log_of E (inr rows) s) ->
  i < j ->
  rows_of u rows !! i = Some mi ->
  rows_of u rows !! j = Some mj ->
  document_id mi = inr id ->
  document_id mj = inr id ->
  exists lines ci cj,
    data = unlines lines /\
    length lines = length (rows_of u rows) /\
    get mi "message" = inr ci /\
    get mj "message" = inr cj /\
    lines !! i
    = Some (JSON_stringify
              (VObj [("id", VStr id); ("content", ci); ("structData", mi)])) /\
    lines !! j
    = Some (JSON_stringify
              (VObj [("id", VStr id); ("content", cj); ("structData", mj)])).
Proof.
  intros Hin Hlt Hi Hj Hidi Hidj.
  destruct (written_data _ _ _ _ _ _ _ Hin) as (-> & Hne & Hdata & _).
  destruct (jsonlContent_lines _ _ Hne Hdata) as (lines & Hmap & -> & Hlen & _).
  destruct (rmap_inr _ _ _ Hmap) as [_ Hnth].
  destruct (Hnth _ _ Hi) as (li & Hli & Hi').
  destruct (Hnth _ _ Hj) as (lj & Hlj & Hj').
  apply document_line_inr in Hli. destruct Hli as (tsi & ci & Htsi & Hci & ->).
  apply document_line_inr in Hlj. destruct Hlj as (tsj & cj & Htsj & Hcj & ->).
  unfold document_id, rbind in Hidi, Hidj. rewrite Htsi in Hidi. rewrite Htsj in Hidj.
  assert (Hei : replace_outside_class tsi = id) by congruence.
  assert (Hej : replace_outside_class tsj = id) by congruence.
  rewrite Hei in Hi'. rewrite Hej in Hj'.
  exists lines, ci, cj. repeat (split; [assumption || reflexivity|]). assumption.
Qed.

Lemma staged_file_keeps_rows_with_equal_ids_witness :
  exists lines ci cj,
    length lines = 2 /\
    lines !! 0
    = Some (JSON_stringify
              (VObj [("id", VStr "2024-01-01_10_00"); ("content", ci);
                     ("structData", row "u1" "2024-01-01 10:00" "first")])) /\
    lines !! 1
    = Some (JSON_stringify
              (VObj [("id", VStr "2024-01-01_10_00"); ("content", cj);
                     ("structData", row "u1" "2024-01-01.10:00" "second")])).
Proof.
  destruct (staged_file_keeps_rows_with_equal_ids cooperative_env batch_same_id initial
              "u1" "/tmp/u1-messages.jsonl"
              (match jsonlContent batch_same_id with
               | inr data => data
               | inl _ => ""
               end)
              Returned 0 1
              (row "u1" "2024-01-01 10:00" "first")
              (row "u1" "2024-01-01.10:00" "second")
              "2024-01-01_10_00")
    as (lines & ci & cj & _ & Hlen & _ & _ & H0 & H1).
  - vm_compute. do 5 right. left. reflexivity.
  - lia.
  - reflexivity.
  - reflexivity.
  - reflexivity.
  - reflexivity.
  - exists lines, ci, cj. split; [exact Hlen|]. split; [exact H0 | exact H1].
Defined.

(** ** The processing order *)

Lemma runs_app a b : runs (a ++ b) = runs a ++ runs b.
Proof.
  induction a as [|[[u|] c o] t IH]; simpl; [reflexivity| |assumption].
  destruct c; try assumption. destruct r; simpl; now rewrite ?IH.
Qed.

Lemma step_runs E token userGroups u s new r s' :
  step E token userGroups u s new r s' -> runs new = [u].
Proof. destruct 1; subst; reflexivity. Qed.

Lemma loop_runs E token userGroups keys s segments r s' :
  loop E token userGroups keys s segments r s' ->
  runs (flatten segments) = map fst segments.
Proof.
  unfold flatten. induction 1; simpl.
  - reflexivity.
  - rewrite app_nil_r. eapply step_runs; eauto.
  - rewrite runs_app, IHloop. now rewrite (step_runs _ _ _ _ _ _ _ _ H).
Qed.

(** C6, as stated, fails: user [2] is seen first, user [1] is run first. *)
Lemma runs_not_in_first_seen_order :
  rmap userPhone_key batch_2_1 = inr ["2"; "1"] /\
  first_occurrences ["2"; "1"] = ["2"; "1"] /\
  fst (processInputFile cooperative_env (inr batch_2_1) initial) = inr tt /\
  runs (log_of cooperative_env (inr batch_2_1) initial) = ["1"; "2"] /\
  runs (log_of cooperative_env (inr batch_2_1) initial) <> first_occurrences ["2"; "1"].
Proof.
  split; [reflexivity|]. split; [reflexivity|].
  split; [vm_compute; reflexivity|]. split; [vm_compute; reflexivity|].
  vm_compute. discriminate.
Qed.

(** C6, amended.  The users are run in the order of [Object.keys]: first the
    keys that are array indices (canonical decimal numerals up to 2^32 - 2),
    in ascending numeric order, then the other keys in the order in which
    they are first seen in the input.  The users started are a prefix of
    that sequence, and all of it when the batch completes; when no key is an
    array index it is the first-seen order. *)
Theorem runs_follow_Object_keys_order E rows s ks :
  rmap userPhone_key rows = inr ks ->
  let order := order_keys (first_occurrences ks) in
  (exists rest,
     order = runs (log_of E (inr rows) s) ++ rest /\
     (fst (processInputFile E (inr rows) s) = inr tt -> rest = [])) /\
  (exists indices,
     order = map snd indices
             ++ List.filter (fun k => negb (is_index k)) (first_occurrences ks) /\
     ascending indices /\
     (forall n k, In (n, k) indices <->
                  In k ks /\ array_index k = Some n)) /\
  ((forall k, In k ks -> is_index k = false) -> order = first_occurrences ks).
Proof.
  intros Hks order. split; [|split].
  - pose proof (processInputFile_run E (inr rows) s) as Hrun.
    remember (log_of E (inr rows) s) as log eqn:Hlog. clear Hlog.
    remember (fst (processInputFile E (inr rows) s)) as r eqn:Hr. clear Hr.
    remember (snd (processInputFile E (inr rows) s)) as s' eqn:Hs'. clear Hs'.
    destruct Hrun as [e0 Hraw|rows' e0 Hraw Hg|rows' userGroups e0 Hraw Hg
                     |rows' userGroups token segments r s' Hraw Hg Hloop];
      try (exists order; split; [reflexivity | discriminate]).
    inversion Hraw; subst rows'.
    destruct (group_rows_batch _ _ Hg) as (ks' & Hks' & Hkeys & _).
    rewrite Hks in Hks'. inversion Hks'; subst ks'.
    simpl. rewrite (loop_runs _ _ _ _ _ _ _ _ Hloop).
    pose proof (loop_keys _ _ _ _ _ _ _ _ Hloop) as Hk.
    unfold Object_keys in Hk. rewrite Hkeys in Hk. fold order in Hk.
    destruct r as [e|[]].
    + destruct Hk as (done & u & rest & -> & -> & _). exists rest.
      split; [now rewrite <- app_assoc | discriminate].
    + exists []. rewrite Hk, app_nil_r. auto.
  - exists (sort_by_index (index_keys (first_occurrences ks))).
    split; [reflexivity|]. split; [apply sort_by_index_ascending|].
    intros n k. split.
    + intros Hin. apply (Permutation_in _ (sort_by_index_perm _)) in Hin.
      pose proof (index_keys_fst _ _ Hin) as Hidx. simpl in Hidx. split; [|assumption].
      apply first_occurrences_In.
      assert (Hsnd : In k (map snd (index_keys (first_occurrences ks)))).
      { apply in_map_iff. exists (n, k). auto. }
      rewrite index_keys_snd in Hsnd. apply filter_In in Hsnd. tauto.
    + intros [Hk Hidx].
      apply (Permutation_in _ (Permutation_sym (sort_by_index_perm _))).
      apply first_occurrences_In in Hk. revert Hk.
      induction (first_occurrences ks) as [|k' t IH]; simpl; [tauto|].
      intros [->|Hk].
      * rewrite Hidx. now left.
      * destruct (array_index k'); [right|]; now apply IH.
  - intros Hno. apply order_keys_no_index. intros k Hk. apply Hno.
    now apply first_occurrences_In.
Qed.

Lemma runs_follow_Object_keys_order_witness :
  rmap userPhone_key batch_u1_u2 = inr ["u1"; "u1"; "u2"] /\
  (forall k, In k ["u1"; "u1"; "u2"] -> is_index k = false) /\
  order_keys (first_occurrences ["u1"; "u1"; "u2"])
  = runs (log_of cooperative_env (inr batch_u1_u2) initial) /\
  order_keys (first_occurrences ["u1"; "u1"; "u2"]) = ["u1"; "u2"].
Proof.
  assert (Hks : rmap userPhone_key batch_u1_u2 = inr ["u1"; "u1"; "u2"])
    by reflexivity.
  assert (Hno : forall k, In k ["u1"; "u1"; "u2"] -> is_index k = false).
  { intros k [<-|[<-|[<-|[]]]]; reflexivity. }
  destruct (runs_follow_Object_keys_order cooperative_env batch_u1_u2 initial
              ["u1"; "u1"; "u2"] Hks) as ((rest & Hrest & Hdone) & _ & Hfirst).
  split; [exact Hks|]. split; [exact Hno|]. split.
  - rewrite Hrest, (Hdone eq_refl). now rewrite app_nil_r.
  - exact (Hfirst Hno).
Defined.

(** ** The success response *)

(** C7, as stated, fails: the body of the success response has no number in
    it, and it is the same for one user and for two. *)
Lemma success_response_has_no_count :
  runs (log_of cooperative_env (inr batch_u1_u2) initial) = ["u1"; "u2"] /\
  runs (log_of cooperative_env (inr batch_u1) initial) = ["u1"] /\
  fst (api_process cooperative_env (inr batch_u1_u2) initial)
  = fst (api_process cooperative_env (inr batch_u1) initial) /\
  exists props,
    body (fst (api_process cooperative_env (inr batch_u1_u2) initial)) = VObj props /\
    forall k n, assoc k props <> Some (VNum n).
Proof.
  split; [vm_compute; reflexivity|]. split; [vm_compute; reflexivity|].
  split; [vm_compute; reflexivity|].
  exists [("success", VBool true); ("message", VStr "Processed all users!")].
  split; [vm_compute; reflexivity|].
  intros k n. simpl.
  destruct (String.eqb k "success"); [discriminate|].
  destruct (String.eqb k "message"); discriminate.
Qed.

(** C7, amended.  When [processInputFile] returns, the response has status
    200 and the fixed body [{success: true, message: "Processed all
    users!"}]; it does not depend on the batch. *)
Theorem success_response_is_fixed E rawData s :
  fst (processInputFile E rawData s) = inr tt ->
  fst (api_process E rawData s)
  = Response 200
      (VObj [("success", VBool true); ("message", VStr "Processed all users!")]).
Proof.
  unfold api_process.
  destruct (processInputFile E rawData s) as [[e|[]] s']; simpl;
    [discriminate | reflexivity].
Qed.

Lemma success_response_is_fixed_witness :
  fst (processInputFile cooperative_env (inr batch_u1_u2) initial) = inr tt /\
  fst (api_process cooperative_env (inr batch_u1_u2) initial)
  = Response 200
      (VObj [("success", VBool true); ("message", VStr "Processed all users!")]).
Proof.
  split; [vm_compute; reflexivity|].
  apply (success_response_is_fixed cooperative_env (inr batch_u1_u2) initial).
  vm_compute; reflexivity.
Defined.

(** ** The registry [userDatastores] *)

Lemma step_registry E token userGroups u s new r s' :
  step E token userGroups u s new r s' ->
  userDatastores s' = userDatastores s \/
  exists a, userDatastores s' = obj_set u a (userDatastores s).
Proof. destruct 1; simpl; unfold registered; eauto. Qed.

Lemma step_registers E token userGroups u s new r s' u' token' searchAppId datastoreId x :
  step E token userGroups u s new r s' ->
  In (Event (Some u') (Fetch token' (EnginesCreate searchAppId datastoreId))
        (Responded true x)) new ->
  assoc u (userDatastores s') = Some (datastoreId, searchAppId).
Proof.
  intros Hstep Hin.
  destruct Hstep; subst new; unfold provisioned, ev, registered in *; simpl in *;
    repeat (destruct Hin as [Hin|Hin]; [inversion Hin; subst; clear Hin|]);
    try destruct Hin;
    try (match goal with H : fetch_fails _ _ |- _ => inversion H end);
    apply assoc_obj_set_eq.
Qed.

Lemma loop_registry E token userGroups keys s segments r s' :
  loop E token userGroups keys s segments r s' ->
  forall k v,
    assoc k (userDatastores s) = Some v ->
    exists v',
      assoc k (userDatastores s') = Some v' /\
      (~ In k (map fst segments) -> v' = v).
Proof.
  assert (Hstep : forall u s new r s' k v,
            step E token userGroups u s new r s' ->
            assoc k (userDatastores s) = Some v ->
            exists v', assoc k (userDatastores s') = Some v' /\ (k <> u -> v' = v)).
  { intros u s0 new r0 s1 k v H Hk. apply step_registry in H.
    destruct H as [->|[a ->]]; [eauto|].
    destruct (String.eqb_spec u k) as [->|Hne].
    - rewrite assoc_obj_set_eq. exists a. split; [reflexivity | congruence].
    - rewrite assoc_obj_set_ne by assumption. eauto. }
  induction 1; intros k v Hk.
  - eauto.
  - destruct (Hstep _ _ _ _ _ _ _ H Hk) as (v' & Hv' & Hsame).
    exists v'. split; [assumption|]. simpl. intros Hn. apply Hsame.
    intuition congruence.
  - destruct (Hstep _ _ _ _ _ _ _ H Hk) as (v1 & Hv1 & Hsame1).
    destruct (IHloop _ _ Hv1) as (v' & Hv' & Hsame).
    exists v'. split; [assumption|]. simpl. intros Hn.
    rewrite Hsame by tauto. apply Hsame1. intuition congruence.
Qed.

Lemma loop_registers E token userGroups keys s segments r s' :
  loop E token userGroups keys s segments r s' ->
  List.NoDup keys ->
  forall u token' searchAppId datastoreId x,
    In (Event (Some u) (Fetch token' (EnginesCreate searchAppId datastoreId))
          (Responded true x)) (flatten segments) ->
    assoc u (userDatastores s') = Some (datastoreId, searchAppId).
Proof.
  induction 1; intros Hnd w token' searchAppId datastoreId x Hin.
  - destruct Hin.
  - unfold flatten in Hin. simpl in Hin. rewrite app_nil_r in Hin.
    pose proof (step_labels _ _ _ _ _ _ _ _ H _ Hin) as Hl. simpl in Hl.
    inversion Hl; subst w. eapply step_registers; eauto.
  - inversion Hnd as [|? ? Hu Hrest]; subst.
    unfold flatten in Hin. simpl in Hin. apply in_app_iff in Hin.
    destruct Hin as [Hin|Hin].
    + pose proof (step_labels _ _ _ _ _ _ _ _ H _ Hin) as Hl. simpl in Hl.
      inversion Hl; subst w.
      pose proof (step_registers _ _ _ _ _ _ _ _ _ _ _ _ _ H Hin) as Hreg.
      destruct (loop_registry _ _ _ _ _ _ _ _ H0 _ _ Hreg) as (v' & Hv' & Hsame).
      rewrite Hv', Hsame; [reflexivity|].
      destruct (loop_started _ _ _ _ _ _ _ _ H0) as [rest' Hk].
      intros Hm. apply Hu. rewrite Hk. apply in_app_iff. now left.
    + eapply IHloop; eauto.
Qed.

(** C8, as stated, fails: the entry written for [u1] while handling one
    request is in the registry when the next request starts, and still
    there when it ends. *)
Lemma registry_entries_survive_the_request :
  let s1 := snd (api_process cooperative_env (inr batch_u1) initial) in
  let s2 := snd (api_process cooperative_env (inr [row "u2" "2024-01-02T00:00:00Z" "hey"]) s1) in
  userDatastores initial = [] /\
  assoc "u1" (userDatastores s1)
  = Some ("datastore-u1-1700000000001", "searchapp-u1-1700000000002") /\
  assoc "u1" (userDatastores s2)
  = Some ("datastore-u1-1700000000001", "searchapp-u1-1700000000002").
Proof. repeat split; vm_compute; reflexivity. Qed.

Lemma api_process_state E rawData s :
  snd (api_process E rawData s) = snd (processInputFile E rawData s).
Proof.
  unfold api_process. now destruct (processInputFile E rawData s) as [[e|[]] s'].
Qed.

(** C8, amended.  The registry belongs to the process, not to the request.
    Handling a request removes no entry: an entry present before is present
    afterwards, with the same value unless calls were made for its user in
    this request; and a user whose search app was created in this request
    has, afterwards, the entry made of the index id and the search-app id
    of that creation. *)
Theorem registry_is_process_wide E rawData s :
  (forall k v,
     assoc k (userDatastores s) = Some v ->
     exists v',
       assoc k (userDatastores (snd (api_process E rawData s))) = Some v' /\
       ((forall x, In x (log_of E rawData s) -> ev_tenant x <> Some k) -> v' = v)) /\
  (forall u token searchAppId datastoreId x,
     In (Event (Some u) (Fetch token (EnginesCreate searchAppId datastoreId))
           (Responded true x)) (log_of E rawData s) ->
     assoc u (userDatastores (snd (api_process E rawData s)))
     = Some (datastoreId, searchAppId)).
Proof.
  rewrite api_process_state.
  pose proof (processInputFile_run E rawData s) as Hrun.
  remember (log_of E rawData s) as log eqn:Hlog. clear Hlog.
  remember (fst (processInputFile E rawData s)) as r eqn:Hr. clear Hr.
  remember (snd (processInputFile E rawData s)) as s' eqn:Hs'. clear Hs'.
  destruct Hrun as [e0 Hraw|rows e0 Hraw Hg|rows userGroups e0 Hraw Hg
                   |rows userGroups token segments r s' Hraw Hg Hloop]; simpl.
  - split; [eauto | tauto].
  - split; [eauto | tauto].
  - split; [eauto|]. intros ? ? ? ? ? [Hx|[]]. discriminate.
  - split.
    + intros k v Hk.
      destruct (loop_registry _ _ _ _ _ _ _ _ Hloop k v Hk) as (v' & Hv' & Hsame).
      exists v'. split; [assumption|]. intros Hno. apply Hsame.
      intros Hin. apply in_map_iff in Hin. destruct Hin as ([w new] & Hw & Hin).
      simpl in Hw. subst w.
      destruct (loop_step_of _ _ _ _ _ _ _ _ _ _ Hloop Hin) as (s0 & r0 & s1 & Hstep).
      assert (Hruns : runs new = [k]) by (eapply step_runs; eauto).
      destruct new as [|x new]; [discriminate|].
      apply (Hno x).
      * right. apply flatten_In. exists k, (x :: new). split; [assumption | now left].
      * apply (step_labels _ _ _ _ _ _ _ _ Hstep). now left.
    + intros u token' searchAppId datastoreId x [Hx|Hin]; [discriminate|].
      eapply loop_registers; eauto. apply (group_keys_NoDup _ _ Hg).
Qed.

Lemma registry_is_process_wide_witness :
  let s1 := snd (api_process cooperative_env (inr batch_u1) initial) in
  let next := inr [row "u2" "2024-01-02T00:00:00Z" "hey"] in
  assoc "u1" (userDatastores s1)
  = Some ("datastore-u1-1700000000001", "searchapp-u1-1700000000002") /\
  (exists v',
     assoc "u1" (userDatastores (snd (api_process cooperative_env next s1))) = Some v' /\
     ((forall x, In x (log_of cooperative_env next s1) -> ev_tenant x <> Some "u1") ->
      v' = ("datastore-u1-1700000000001", "searchapp-u1-1700000000002"))) /\
  assoc "u2" (userDatastores (snd (api_process cooperative_env next s1)))
  = Some ("datastore-u2-1700000000010", "searchapp-u2-1700000000011").
Proof.
  intros s1 next.
  assert (H1 : assoc "u1" (userDatastores s1)
               = Some ("datastore-u1-1700000000001", "searchapp-u1-1700000000002"))
    by (vm_compute; reflexivity).
  split; [exact H1|]. split.
  - exact (proj1 (registry_is_process_wide cooperative_env next s1) "u1" _ H1).
  - apply (proj2 (registry_is_process_wide cooperative_env next s1)
             "u2" "token" "searchapp-u2-1700000000011" "datastore-u2-1700000000010" "{}").
    vm_compute. do 4 right. left. reflexivity.
Defined.

(** ** Deleting the staged file *)

(** C9.  The loop body deletes the staged file as its last statement only:
    when the upload throws, the run of the user ends, and the batch is
    answered, with the staged file still there. *)
Lemma staged_file_left_after_failed_upload :
  fst (tenant_run offline_bucket_env "token" [("u1", batch_u1)] "u1" initial)
  = inl (Error "upload failed") /\
  is_Some (files (snd (tenant_run offline_bucket_env "token" [("u1", batch_u1)] "u1" initial))
             !! userFilePath offline_bucket_env "u1") /\
  fst (processInputFile offline_bucket_env (inr batch_u1) initial)
  = inl (Error "upload failed") /\
  is_Some (files (snd (processInputFile offline_bucket_env (inr batch_u1) initial))
             !! "/tmp/u1-messages.jsonl").
Proof.
  split; [vm_compute; reflexivity|]. split; [vm_compute; eauto|].
  split; [vm_compute; reflexivity|]. vm_compute; eauto.
Qed.

Lemma step_completed_files E token userGroups u s new s' :
  step E token userGroups u s new (inr tt) s' ->
  files s' !! userFilePath E u = None /\
  forall p, files s !! p = None -> files s' !! p = None.
Proof.
  inversion 1; subst; cbn [files]. split.
  - apply lookup_delete_eq.
  - intros p Hp. destruct (decide (userFilePath E u = p)) as [->|Hne].
    + apply lookup_delete_eq.
    + now rewrite lookup_delete_ne, lookup_insert_ne by assumption.
Qed.

Lemma loop_completed_files E token userGroups keys s segments s' :
  loop E token userGroups keys s segments (inr tt) s' ->
  forall u new, In (u, new) segments -> files s' !! userFilePath E u = None.
Proof.
  remember (inr tt) as r eqn:Hr. induction 1; intros w new' Hin.
  - destruct Hin.
  - discriminate.
  - destruct (step_completed_files _ _ _ _ _ _ _ H) as [Hu Hkeep].
    destruct Hin as [Heq|Hin].
    + inversion Heq; subst.
      apply (proj1 (loop_others _ _ _ _ _ _ _ _ H0)); auto.
    + eapply IHloop; eauto.
Qed.

(** On the exit that completes, the file is deleted: at the end of a run of
    [tenant_run] that returns, the user's staged file does not exist; and
    when the whole batch completes, no file written during the batch
    exists. *)
Lemma staged_file_deleted_when_run_completes E :
  (forall token userGroups u s,
     fst (tenant_run E token userGroups u s) = inr tt ->
     files (snd (tenant_run E token userGroups u s)) !! userFilePath E u = None) /\
  (forall rawData s u path data o,
     fst (processInputFile E rawData s) = inr tt ->
     In (Event (Some u) (WriteFileSync path data) o) (log_of E rawData s) ->
     files (snd (processInputFile E rawData s)) !! path = None).
Proof.
  split.
  - intros token userGroups u s Hr.
    destruct (tenant_run_step E token userGroups u s) as [new Hstep].
    rewrite Hr in Hstep. now apply step_completed_files in Hstep.
  - intros rawData s u path data o Hr Hin.
    pose proof (processInputFile_run E rawData s) as Hrun. rewrite Hr in Hrun.
    remember (log_of E rawData s) as log eqn:Hlog. clear Hlog.
    remember (snd (processInputFile E rawData s)) as s' eqn:Hs'. clear Hs' Hr.
    remember (inr tt) as r eqn:Hr.
    destruct Hrun as [e0 Hraw|rows e0 Hraw Hg|rows userGroups e0 Hraw Hg
                     |rows userGroups token segments r s' Hraw Hg Hloop];
      try discriminate.
    subst r. destruct Hin as [Hx|Hin]; [discriminate|].
    apply flatten_In in Hin. destruct Hin as (w & new & Hseg & Hin).
    destruct (loop_step_of _ _ _ _ _ _ _ _ _ _ Hloop Hseg) as (s0 & r0 & s1 & Hstep).
    pose proof (step_labels _ _ _ _ _ _ _ _ Hstep _ Hin) as Hl. simpl in Hl.
    inversion Hl; subst w.
    apply in_split in Hin. destruct Hin as (a1 & a2 & Hnew).
    destruct (step_WriteFileSync _ _ _ _ _ _ _ _ _ _ _ _ _ _ Hstep Hnew) as [-> _].
    eapply loop_completed_files; eauto.
Qed.

Lemma staged_file_deleted_when_run_completes_witness :
  fst (tenant_run cooperative_env "token" [("u1", batch_u1)] "u1" initial) = inr tt /\
  files (snd (tenant_run cooperative_env "token" [("u1", batch_u1)] "u1" initial))
    !! userFilePath cooperative_env "u1" = None /\
  fst (processInputFile cooperative_env (inr batch_u1_u2) initial) = inr tt /\
  files (snd (processInputFile cooperative_env (inr batch_u1_u2) initial))
    !! "/tmp/u2-messages.jsonl" = None.
Proof.
  split; [vm_compute; reflexivity|]. split.
  - apply (proj1 (staged_file_deleted_when_run_completes cooperative_env)).
    vm_compute; reflexivity.
  - split; [vm_compute; reflexivity|].
    apply (proj2 (staged_file_deleted_when_run_completes cooperative_env)
             (inr batch_u1_u2) initial "u2" "/tmp/u2-messages.jsonl"
             (match jsonlContent (rows_of "u2" batch_u1_u2) with
              | inr data => data
              | inl _ => ""
              end)
             Returned).
    + vm_compute; reflexivity.
    + vm_compute. do 13 right. left. reflexivity.
Defined.

(** ** Rows without a string timestamp *)

Lemma for_of_cooperative E token userGroups u rest e :
  cooperative E ->
  staged userGroups u = inl e ->
  forall done s,
    (forall v, In v done -> exists content, staged userGroups v = inr content) ->
    exists log0 t1 t2 x y s',
      for_of (done ++ u :: rest) (tenant_run E token userGroups) s = (inl e, s') /\
      history s' = history s ++ log0 ++ provisioned token u t1 t2 x y /\
      assoc u (userDatastores s') = Some (datastoreId_of u t1, searchAppId_of u t2).
Proof.
  intros Hco Hu. induction done as [|v done IH]; intros s Hdone.
  - destruct (tenant_run_cooperative E token userGroups u s Hco) as (t1 & t2 & x & y & H).
    rewrite Hu in H. simpl. unfold bind. rewrite H.
    exists [], t1, t2, x, y. eexists. split; [reflexivity|]. simpl.
    split; [reflexivity|]. apply assoc_obj_set_eq.
  - destruct (tenant_run_cooperative E token userGroups v s Hco)
      as (t1' & t2' & x' & y' & H).
    destruct (Hdone v (or_introl eq_refl)) as [content Hv]. rewrite Hv in H.
    destruct H as [s1 H].
    destruct (IH s1) as (log0 & t1 & t2 & x & y & s' & Hfor & Hh & Hreg).
    { intros w Hw. apply Hdone. now right. }
    destruct (tenant_run_step E token userGroups v s) as [new Hstep].
    rewrite H in Hstep. simpl in Hstep. apply step_history in Hstep.
    destruct Hstep as [Hs1 _].
    exists (new ++ log0), t1, t2, x, y, s'. simpl. unfold bind. rewrite H.
    split; [assumption|]. split; [|assumption].
    rewrite Hh, Hs1. now rewrite <- !app_assoc.
Qed.

Lemma loop_completed_staged E token userGroups keys s segments s' :
  loop E token userGroups keys s segments (inr tt) s' ->
  forall u, In u keys -> exists content, staged userGroups u = inr content.
Proof.
  remember (inr tt) as r eqn:Hr. induction 1; intros w Hw.
  - destruct Hw.
  - discriminate.
  - destruct Hw as [<-|Hw]; [|now apply IHloop].
    inversion H; subst; eauto.
Qed.

Lemma rmap_In {A B} (f : A -> result B) l ys x :
  rmap f l = inr ys -> In x l -> exists y, f x = inr y /\ In y ys.
Proof.
  revert ys. induction l as [|a t IH]; simpl; intros ys H Hx; [destruct Hx|].
  destruct (f a) as [e|y] eqn:Ha; [discriminate|].
  destruct (rmap f t) as [e|ys'] eqn:Ht; [discriminate|].
  inversion H; subst. destruct Hx as [<-|Hx].
  - exists y. split; [assumption | now left].
  - destruct (IH _ eq_refl Hx) as (y' & Hy' & Hin). exists y'. split; [assumption | now right].
Qed.

(** A row of a grouped batch belongs to the group of one of the keys. *)
Lemma row_in_its_group rows userGroups m :
  group_rows [] rows = inr userGroups ->
  In m rows ->
  exists k, In k (Object_keys userGroups) /\ In m (rows_of k rows).
Proof.
  intros Hg Hm. destruct (group_rows_batch _ _ Hg) as (ks & Hks & Hkeys & _).
  destruct (rmap_In _ _ _ _ Hks Hm) as (k & Hk & Hin).
  exists k. split.
  - unfold Object_keys. rewrite Hkeys. apply order_keys_In.
    now apply first_occurrences_In.
  - unfold rows_of. apply filter_In. split; [assumption|].
    unfold has_key. rewrite Hk. apply String.eqb_refl.
Qed.

(** C10, as stated, fails: a batch with a row that has no string timestamp
    need not reach the staging content of that row's user.  When the upload
    of an earlier user fails, the exception is the upload's and no call is
    made for the user of the row; when the row's key is a property plain
    objects inherit, the grouping loop throws and no call is made at all. *)
Lemma missing_timestamp_need_not_reach_staging :
  (exists m, In m batch_missing_timestamp /\ string_timestamp m = false) /\
  fst (processInputFile offline_bucket_env (inr batch_missing_timestamp) initial)
  = inl (Error "upload failed") /\
  (forall x, In x (log_of offline_bucket_env (inr batch_missing_timestamp) initial) ->
             ev_tenant x <> Some "u2") /\
  (exists m, In m batch_inherited_key /\ string_timestamp m = false) /\
  fst (processInputFile cooperative_env (inr batch_inherited_key) initial)
  = inl (TypeError "userGroups[row.userPhone].push is not a function") /\
  log_of cooperative_env (inr batch_inherited_key) initial = [].
Proof.
  split; [eexists; split; [right; left; reflexivity | reflexivity]|].
  split; [vm_compute; reflexivity|]. split.
  - intros x Hx. vm_compute in Hx.
    repeat (destruct Hx as [<-|Hx]; [discriminate|]). destruct Hx.
  - split; [eexists; split; [left; reflexivity | reflexivity]|].
    split; vm_compute; reflexivity.
Qed.

(** C10, amended.  A batch that has a row whose [timestamp] is missing or
    not a string never completes: in every environment [processInputFile]
    throws.
    In an environment where no call fails, a batch that is grouped
    and has a row whose [timestamp] is missing or not a string makes
    [processInputFile] throw a [TypeError], raised while the staged content
    is built for the first user, in processing order, that has such a row:
    the log ends with that user's index creation and search-app creation,
    both successful, nothing is written, and the registry holds the ids of
    the two resources.  If every row has a string timestamp, building the
    staged content never throws. *)
Theorem missing_timestamp_throws_after_provisioning :
  (forall E rows s,
     (exists m, In m rows /\ string_timestamp m = false) ->
     exists e, fst (processInputFile E (inr rows) s) = inl e) /\
  (forall E rows s userGroups done u rest,
     cooperative E ->
     group_rows [] rows = inr userGroups ->
     Object_keys userGroups = done ++ u :: rest ->
     (forall v m, In v done -> In m (rows_of v rows) -> string_timestamp m = true) ->
     (exists m, In m (rows_of u rows) /\ string_timestamp m = false) ->
     exists msg log0 token t1 t2 x y,
       fst (processInputFile E (inr rows) s) = inl (TypeError msg) /\
       jsonlContent (rows_of u rows) = inl (TypeError msg) /\
       log_of E (inr rows) s = log0 ++ provisioned token u t1 t2 x y /\
       assoc u (userDatastores (snd (processInputFile E (inr rows) s)))
       = Some (datastoreId_of u t1, searchAppId_of u t2)) /\
  (forall rows userGroups u,
     (forall m, In m rows -> string_timestamp m = true) ->
     group_rows [] rows = inr userGroups ->
     In u (Object_keys userGroups) ->
     exists content,
       jsonlContent (rows_of u rows) = inr content /\
       staged userGroups u = inr content).
Proof.
  split; [|split].
  - intros E rows s (m & Hm & Hbad).
    pose proof (processInputFile_run E (inr rows) s) as Hrun.
    remember (log_of E (inr rows) s) as log eqn:Hlog. clear Hlog.
    remember (snd (processInputFile E (inr rows) s)) as s' eqn:Hs'. clear Hs'.
    destruct (fst (processInputFile E (inr rows) s)) as [e|[]]; [eauto|].
    exfalso. remember (inr tt) as r eqn:Hr.
    destruct Hrun as [e0 Hraw|rows' e0 Hraw Hg|rows' userGroups e0 Hraw Hg
                     |rows' userGroups token segments r s' Hraw Hg Hloop];
      try discriminate.
    subst r. inversion Hraw; subst rows'.
    destruct (row_in_its_group _ _ _ Hg Hm) as (k & Hk & Hin).
    destruct (loop_completed_staged _ _ _ _ _ _ _ Hloop k Hk) as [content Hc].
    rewrite (staged_group rows) in Hc by assumption.
    destruct (jsonlContent_throws (rows_of k rows)) as [msg Hmsg]; [eauto|].
    congruence.
  - intros E rows s userGroups done u rest Hco Hg Hkeys Hdone Hbad.
    destruct (jsonlContent_throws _ Hbad) as [msg Hmsg].
    assert (Hu : staged userGroups u = inl (TypeError msg)).
    { rewrite (staged_group rows) by (rewrite ?Hkeys, ?in_app_iff; simpl; auto).
      assumption. }
    destruct Hco as (Htok & Hco).
    destruct (Htok (history s)) as [token Htoken].
    destruct (for_of_cooperative E token userGroups u rest _ (conj Htok Hco) Hu done
                (State (history s ++ [Event None GetToken (ReturnedToken token)])
                   (files s) (userDatastores s) None))
      as (log0 & t1 & t2 & x & y & s' & Hfor & Hh & Hreg).
    { intros v Hv. rewrite (staged_group rows) by (rewrite ?Hkeys, ?in_app_iff; auto).
      apply jsonlContent_total. intros m Hm. now apply (Hdone v). }
    assert (Hp : processInputFile E (inr rows) s = (inl (TypeError msg), s')).
    { unfold processInputFile, bind, set_tenant, lift, getToken, logged.
      cbn [history files userDatastores tenant]. rewrite Hg, Htoken, Hkeys.
      exact Hfor. }
    exists msg, (Event None GetToken (ReturnedToken token) :: log0), token, t1, t2, x, y.
    unfold log_of. rewrite Hp. cbn [fst snd]. repeat (split; [assumption || reflexivity|]).
    split; [|assumption].
    rewrite Hh. cbn [history]. rewrite <- app_assoc. now rewrite drop_app_length.
  - intros rows userGroups u Hall Hg Hu.
    destruct (jsonlContent_total (rows_of u rows)) as [content Hc].
    { intros m Hm. apply Hall. unfold rows_of in Hm. apply filter_In in Hm. tauto. }
    exists content. split; [assumption|]. now rewrite (staged_group rows).
Qed.

Lemma missing_timestamp_throws_after_provisioning_witness :
  (exists e,
     fst (processInputFile refusing_env (inr batch_missing_timestamp) initial) = inl e) /\
  (exists msg log0 token t1 t2 x y,
     fst (processInputFile cooperative_env (inr batch_missing_timestamp) initial)
     = inl (TypeError msg) /\
     jsonlContent (rows_of "u2" batch_missing_timestamp) = inl (TypeError msg) /\
     log_of cooperative_env (inr batch_missing_timestamp) initial
     = log0 ++ provisioned token "u2" t1 t2 x y /\
     assoc "u2"
       (userDatastores
          (snd (processInputFile cooperative_env (inr batch_missing_timestamp) initial)))
     = Some (datastoreId_of "u2" t1, searchAppId_of "u2" t2)) /\
  (exists content,
     jsonlContent (rows_of "u1" batch_u1_u2) = inr content /\
     staged [("u1", rows_of "u1" batch_u1_u2); ("u2", rows_of "u2" batch_u1_u2)] "u1"
     = inr content).
Proof.
  split; [|split].
  - apply (proj1 missing_timestamp_throws_after_provisioning refusing_env
             batch_missing_timestamp initial).
    eexists. split; [right; left; reflexivity | reflexivity].
  - apply (proj1 (proj2 missing_timestamp_throws_after_provisioning) cooperative_env
             batch_missing_timestamp initial
             [("u1", rows_of "u1" batch_missing_timestamp);
              ("u2", rows_of "u2" batch_missing_timestamp);
              ("u3", rows_of "u3" batch_missing_timestamp)]
             ["u1"] "u2" ["u3"]).
    + exact cooperative_env_cooperative.
    + reflexivity.
    + reflexivity.
    + intros v m [<-|[]] [<-|[]]. reflexivity.
    + eexists. split; [left; reflexivity | reflexivity].
  - apply (proj2 (proj2 missing_timestamp_throws_after_provisioning) batch_u1_u2).
    + intros m [<-|[<-|[<-|[]]]]; reflexivity.
    + reflexivity.
    + left. reflexivity.
Defined.

(** * Further properties of the program *)

(** ** Grouping *)

Lemma total_obj_set_new k (a : list value) o :
  assoc k o = None -> total (obj_set k a o) = total o + length a.
Proof.
  induction o as [|[k' b] t IH]; simpl; intros H; [lia|].
  destruct (String.eqb k k'); [discriminate|]. simpl. rewrite IH by assumption. lia.
Qed.

Lemma total_obj_set_old k (a b : list value) o :
  assoc k o = Some b -> total (obj_set k a o) + length b = total o + length a.
Proof.
  induction o as [|[k' c] t IH]; simpl; intros H; [discriminate|].
  destruct (String.eqb k k').
  - inversion H; subst. simpl. lia.
  - simpl. specialize (IH H). lia.
Qed.

Lemma group_rows_total rawData : forall g g',
  group_rows g rawData = inr g' -> total g' = total g + length rawData.
Proof.
  induction rawData as [|row rest IH]; intros g g' H; simpl in H.
  - inversion H. simpl. lia.
  - destruct (group_row g row) as [e|g1] eqn:Hrow; [discriminate|].
    apply group_row_inv in Hrow. destruct Hrow as (k & _ & Hg1).
    rewrite (IH _ _ H). simpl.
    destruct (assoc k g) as [rows|] eqn:Hk.
    + subst g1. pose proof (total_obj_set_old k (rows ++ [row]) rows g Hk) as Ht.
      rewrite length_app in Ht. simpl in Ht. lia.
    + destruct Hg1 as [_ ->]. rewrite (total_obj_set_new k [row] g Hk). simpl. lia.
Qed.

(** X1.  When the grouping loop returns, the groups are an exact partition
    of the batch: the keys are distinct, the group of a key is the list of
    the rows with that key in input order and is never empty, every row is
    in the group of its own key, and the groups hold as many rows as the
    batch. *)
Theorem grouping_is_an_exact_partition rawData userGroups :
  group_rows [] rawData = inr userGroups ->
  List.NoDup (map fst userGroups) /\
  (forall k rows,
     assoc k userGroups = Some rows -> rows = rows_of k rawData /\ rows <> []) /\
  (forall m,
     In m rawData ->
     exists k rows,
       userPhone_key m = inr k /\ assoc k userGroups = Some rows /\ In m rows) /\
  total userGroups = length rawData.
Proof.
  intros Hg. destruct (group_rows_batch _ _ Hg) as (ks & Hks & Hkeys & Hassoc & _).
  split; [rewrite Hkeys; apply first_occurrences_NoDup|]. split; [|split].
  - intros k rows Hk. rewrite Hassoc in Hk.
    destruct (rows_of k rawData); [discriminate|]. inversion Hk. split; [reflexivity | discriminate].
  - intros m Hm. destruct (rmap_In _ _ _ _ Hks Hm) as (k & Hk & _).
    assert (Hin : In m (rows_of k rawData)).
    { unfold rows_of. apply filter_In. split; [assumption|].
      unfold has_key. rewrite Hk. apply String.eqb_refl. }
    exists k, (rows_of k rawData). split; [assumption|]. split; [|assumption].
    rewrite Hassoc. destruct (rows_of k rawData); [destruct Hin | reflexivity].
  - apply (group_rows_total _ _ _ Hg).
Qed.

Lemma grouping_is_an_exact_partition_witness :
  group_rows [] batch_u1_u2
  = inr [("u1", rows_of "u1" batch_u1_u2); ("u2", rows_of "u2" batch_u1_u2)] /\
  total [("u1", rows_of "u1" batch_u1_u2); ("u2", rows_of "u2" batch_u1_u2)] = 3.
Proof.
  assert (Hg : group_rows [] batch_u1_u2
               = inr [("u1", rows_of "u1" batch_u1_u2); ("u2", rows_of "u2" batch_u1_u2)])
    by reflexivity.
  split; [exact Hg|].
  exact (proj2 (proj2 (proj2 (grouping_is_an_exact_partition _ _ Hg)))).
Defined.

Lemma group_row_returns g row k :
  userPhone_key row = inr k -> inherited k = false ->
  exists g', group_row g row = inr g'.
Proof.
  intros Hk Hi. unfold group_row, rbind, obj_get. rewrite Hk.
  destruct (assoc k g) as [rows|] eqn:Ha; simpl.
  - rewrite Ha. eauto.
  - rewrite Hi. simpl. rewrite assoc_obj_set_eq. eauto.
Qed.

(** X2.  The grouping loop returns exactly on the batches in which every
    row has a [userPhone] that converts to a key and the key is not a
    property inherited from [Object.prototype]; on every other batch it
    throws. *)
Theorem grouping_returns_iff rawData :
  (exists userGroups, group_rows [] rawData = inr userGroups) <->
  (forall m, In m rawData ->
             exists k, userPhone_key m = inr k /\ inherited k = false).
Proof.
  split.
  - intros [userGroups Hg] m Hm.
    destruct (group_rows_batch _ _ Hg) as (ks & Hks & Hkeys & _ & Hinh).
    destruct (rmap_In _ _ _ _ Hks Hm) as (k & Hk & Hin).
    exists k. split; [assumption|]. apply Hinh. rewrite Hkeys.
    now apply first_occurrences_In.
  - generalize (@nil (string * list value)).
    induction rawData as [|row rest IH]; intros g Hall; simpl; [eauto|].
    destruct (Hall row (or_introl eq_refl)) as (k & Hk & Hi).
    destruct (group_row_returns g row k Hk Hi) as [g1 ->].
    apply IH. intros m Hm. apply Hall. now right.
Qed.

(** ** Document ids and staged content *)

Lemma in_class_underscore : in_class "_" = true.
Proof. reflexivity. Qed.

(** X3.  Sanitizing a timestamp keeps its length, yields only characters of
    the class A-Z a-z 0-9 _ -, leaves a string of such characters unchanged,
    and is idempotent. *)
Theorem document_id_sanitizer s :
  String.length (replace_outside_class s) = String.length s /\
  (forall i c, String.get i (replace_outside_class s) = Some c -> in_class c = true) /\
  ((forall i c, String.get i s = Some c -> in_class c = true) ->
   replace_outside_class s = s) /\
  replace_outside_class (replace_outside_class s) = replace_outside_class s.
Proof.
  assert (Hrange : forall t i c,
            String.get i (replace_outside_class t) = Some c -> in_class c = true).
  { induction t as [|d t IH]; intros i c; simpl; [discriminate|].
    destruct i as [|i]; [|apply IH].
    intros H; inversion H; subst. destruct (in_class d) eqn:Hd; [assumption | reflexivity]. }
  assert (Hfix : forall t, (forall i c, String.get i t = Some c -> in_class c = true) ->
                           replace_outside_class t = t).
  { induction t as [|d t IH]; intros H; simpl; [reflexivity|].
    rewrite (H 0 d eq_refl). f_equal. apply IH. intros i c Hi. apply (H (S i) c Hi). }
  split; [apply replace_outside_class_length|]. split; [apply Hrange|].
  split; [apply Hfix|]. apply Hfix, Hrange.
Qed.

(** X4.  The staged content of a list of rows can be built exactly when
    every row has a string [timestamp]; otherwise building it throws a
    [TypeError]. *)
Theorem staged_content_built_iff rows :
  ((exists content, jsonlContent rows = inr content) <->
   (forall m, In m rows -> string_timestamp m = true)) /\
  (forall e, jsonlContent rows = inl e -> exists msg, e = TypeError msg).
Proof.
  split; [split|].
  - intros [content Hc] m Hm.
    destruct (string_timestamp m) eqn:Hts; [reflexivity|].
    destruct (jsonlContent_throws rows) as [msg Hmsg]; [eauto | congruence].
  - apply jsonlContent_total.
  - intros e He. unfold jsonlContent, rbind in He.
    destruct (rmap document_line rows) as [e'|lines] eqn:Hmap; [|discriminate].
    inversion He; subst. apply rmap_inl in Hmap. destruct Hmap as (m & _ & Hm).
    apply document_line_inl in Hm. tauto.
Qed.

(** ** The calls of a batch *)

Lemma step_calls E token userGroups u s new r s' x :
  step E token userGroups u s new r s' ->
  In x new ->
  ev_call x <> GetToken /\
  (forall token' q', ev_call x = Fetch token' q' -> token' = token).
Proof.
  intros Hstep Hin.
  destruct Hstep; subst new; unfold provisioned, ev in *; simpl in Hin;
    repeat (destruct Hin as [<-|Hin];
            [simpl; split; [discriminate | intros ? ? Heq; now inversion Heq]|]);
    destruct Hin.
Qed.

(** X5.  A batch asks for a token at most once, before any other call, and
    every request it sends to the indexing service carries the token that
    this one call returned. *)
Theorem token_is_fetched_once E rawData s :
  log_of E rawData s = [] \/
  exists o rest,
    log_of E rawData s = Event None GetToken o :: rest /\
    (forall x, In x rest -> ev_call x <> GetToken) /\
    (forall x token q', In x rest -> ev_call x = Fetch token q' -> o = ReturnedToken token).
Proof.
  pose proof (processInputFile_run E rawData s) as Hrun.
  remember (log_of E rawData s) as log eqn:Hlog. clear Hlog.
  remember (fst (processInputFile E rawData s)) as r eqn:Hr. clear Hr.
  remember (snd (processInputFile E rawData s)) as s' eqn:Hs'. clear Hs'.
  destruct Hrun as [e0 Hraw|rows e0 Hraw Hg|rows userGroups e0 Hraw Hg
                   |rows userGroups token segments r s' Hraw Hg Hloop];
    [now left | now left | |].
  - right. exists (Threw e0), []. split; [reflexivity|].
    split; [intros x [] | intros x token q' []].
  - right. exists (ReturnedToken token), (flatten segments). split; [reflexivity|].
    assert (Hall : forall x, In x (flatten segments) ->
              ev_call x <> GetToken /\
              (forall token' q', ev_call x = Fetch token' q' -> token' = token)).
    { intros x Hx. apply flatten_In in Hx. destruct Hx as (u & new & Hin & Hx).
      destruct (loop_step_of _ _ _ _ _ _ _ _ _ _ Hloop Hin) as (s0 & r0 & s1 & Hstep).
      eapply step_calls; eauto. }
    split.
    + intros x Hx. now apply Hall.
    + intros x token' q' Hx Hc. f_equal. symmetry. eapply Hall; eauto.
Qed.

(** X6.  A batch makes no call at all exactly when the grouping loop throws;
    then [processInputFile] throws that exception and leaves the files and
    the registry as they were. *)
Theorem no_call_unless_grouped E rows s :
  (log_of E (inr rows) s = [] <-> exists e, group_rows [] rows = inl e) /\
  (forall e,
     group_rows [] rows = inl e ->
     fst (processInputFile E (inr rows) s) = inl e /\
     files (snd (processInputFile E (inr rows) s)) = files s /\
     userDatastores (snd (processInputFile E (inr rows) s)) = userDatastores s).
Proof.
  assert (Hthrows : forall e, group_rows [] rows = inl e ->
            processInputFile E (inr rows) s
            = (inl e, State (history s) (files s) (userDatastores s) None)).
  { intros e He. unfold processInputFile, bind, set_tenant, lift. now rewrite He. }
  split.
  - split.
    + intros Hlog. destruct (group_rows [] rows) as [e|userGroups] eqn:Hg; [eauto|].
      exfalso. pose proof (processInputFile_run E (inr rows) s) as Hrun.
      rewrite Hlog in Hrun. inversion Hrun; congruence.
    + intros [e He]. unfold log_of. rewrite (Hthrows e He). simpl. apply drop_all.
  - intros e He. rewrite (Hthrows e He). auto.
Qed.

Lemma no_call_unless_grouped_witness :
  log_of cooperative_env (inr [row "toString" "2024-01-01T00:00:00Z" "hi"]) initial = [] /\
  fst (processInputFile cooperative_env
         (inr [row "toString" "2024-01-01T00:00:00Z" "hi"]) initial)
  = inl (TypeError "userGroups[row.userPhone].push is not a function").
Proof.
  pose proof (no_call_unless_grouped cooperative_env
                [row "toString" "2024-01-01T00:00:00Z" "hi"] initial) as [Hiff Hthrows].
  split.
  - apply Hiff. eexists. reflexivity.
  - apply (Hthrows _ eq_refl).
Defined.

Lemma step_completed_length E token userGroups u s new s' :
  step E token userGroups u s new (inr tt) s' -> length new = 8.
Proof. inversion 1; subst. reflexivity. Qed.

Lemma loop_completed_length E token userGroups keys s segments s' :
  loop E token userGroups keys s segments (inr tt) s' ->
  length (flatten segments) = 8 * length keys.
Proof.
  unfold flatten. remember (inr tt) as r eqn:Hr. induction 1; simpl.
  - reflexivity.
  - discriminate.
  - rewrite length_app, (step_completed_length _ _ _ _ _ _ _ H), IHloop by assumption. lia.
Qed.

Lemma runs_GetToken o log : runs (Event None GetToken o :: log) = runs log.
Proof. reflexivity. Qed.

(** X7.  When a batch completes, every distinct key of the batch has been
    run exactly once, and the batch made one token call and eight calls per
    user, nothing else; an empty batch makes the token call only. *)
Theorem completed_batch_runs_each_user_once E rows s :
  fst (processInputFile E (inr rows) s) = inr tt ->
  exists ks,
    rmap userPhone_key rows = inr ks /\
    List.NoDup (runs (log_of E (inr rows) s)) /\
    (forall k, In k (runs (log_of E (inr rows) s)) <-> In k ks) /\
    length (log_of E (inr rows) s) = 1 + 8 * length (runs (log_of E (inr rows) s)).
Proof.
  intros Hr. pose proof (processInputFile_run E (inr rows) s) as Hrun. rewrite Hr in Hrun.
  remember (log_of E (inr rows) s) as log eqn:Hlog. clear Hlog.
  remember (snd (processInputFile E (inr rows) s)) as s' eqn:Hs'. clear Hs' Hr.
  remember (inr tt) as r eqn:Hr.
  destruct Hrun as [e0 Hraw|rows' e0 Hraw Hg|rows' userGroups e0 Hraw Hg
                   |rows' userGroups token segments r s' Hraw Hg Hloop];
    try discriminate.
  subst r. inversion Hraw; subst rows'.
  destruct (group_rows_batch _ _ Hg) as (ks & Hks & Hkeys & _).
  pose proof (loop_keys _ _ _ _ _ _ _ _ Hloop) as Hk. simpl in Hk.
  exists ks. split; [assumption|].
  rewrite runs_GetToken, (loop_runs _ _ _ _ _ _ _ _ Hloop), Hk.
  split; [apply (group_keys_NoDup _ _ Hg)|]. split.
  - intros k. unfold Object_keys. rewrite Hkeys, order_keys_In.
    apply first_occurrences_In.
  - simpl. now rewrite (loop_completed_length _ _ _ _ _ _ _ Hloop).
Qed.

Lemma completed_batch_runs_each_user_once_witness :
  fst (processInputFile cooperative_env (inr batch_u1_u2) initial) = inr tt /\
  exists ks,
    rmap userPhone_key batch_u1_u2 = inr ks /\
    List.NoDup (runs (log_of cooperative_env (inr batch_u1_u2) initial)) /\
    (forall k, In k (runs (log_of cooperative_env (inr batch_u1_u2) initial)) <-> In k ks) /\
    length (log_of cooperative_env (inr batch_u1_u2) initial)
    = 1 + 8 * length (runs (log_of cooperative_env (inr batch_u1_u2) initial)).
Proof.
  assert (H : fst (processInputFile cooperative_env (inr batch_u1_u2) initial) = inr tt)
    by (vm_compute; reflexivity).
  split; [exact H|].
  exact (completed_batch_runs_each_user_once cooperative_env batch_u1_u2 initial H).
Defined.

(** ** The calls made for one user *)

Lemma filter_labelled_own u new :
  (forall x, In x new -> ev_tenant x = Some u) ->
  List.filter (labelled u) new = new.
Proof.
  intros H. apply filter_true. intros x Hx. unfold labelled.
  rewrite (H x Hx). apply String.eqb_refl.
Qed.

Lemma filter_labelled_other u v new :
  u <> v ->
  (forall x, In x new -> ev_tenant x = Some v) ->
  List.filter (labelled u) new = [].
Proof.
  intros Hne H. induction new as [|x t IH]; simpl; [reflexivity|].
  unfold labelled at 1. rewrite (H x (or_introl eq_refl)).
  destruct (String.eqb_spec v u); [congruence|]. apply IH. intros; apply H; now right.
Qed.

Lemma filter_labelled_segments u new segments :
  List.NoDup (map fst segments) ->
  Forall (fun seg => forall x, In x (snd seg) -> ev_tenant x = Some (fst seg)) segments ->
  In (u, new) segments ->
  List.filter (labelled u) (flatten segments) = new.
Proof.
  unfold flatten. induction segments as [|[v seg] t IH]; intros Hnd Hall Hin; [destruct Hin|].
  inversion Hnd as [|? ? Hv Ht]; subst. inversion Hall as [|? ? Hseg Hrest]; subst.
  simpl in *. rewrite List.filter_app. destruct Hin as [Heq|Hin].
  - inversion Heq; subst. rewrite (filter_labelled_own _ _ Hseg).
    assert (Hnone : List.filter (labelled u) (concat (map snd t)) = []).
    { clear -Hv Hrest. induction t as [|[w seg'] t IH]; [reflexivity|].
      inversion Hrest as [|? ? Hw Ht]; subst. simpl in *. rewrite List.filter_app.
      rewrite (filter_labelled_other u w seg'); [|intros ->; tauto|assumption].
      apply IH; [tauto | assumption]. }
    now rewrite Hnone, app_nil_r.
  - assert (Hne : u <> v).
    { intros ->. apply Hv. apply in_map_iff. exists (v, new). auto. }
    rewrite (filter_labelled_other u v seg Hne Hseg). simpl. now apply IH.
Qed.

Lemma loop_labels E token userGroups keys s segments r s' :
  loop E token userGroups keys s segments r s' ->
  Forall (fun seg => forall x, In x (snd seg) -> ev_tenant x = Some (fst seg)) segments.
Proof.
  induction 1; repeat constructor; simpl; try assumption;
    eapply step_labels; eauto.
Qed.

Lemma step_completed_calls E token userGroups u s new s' :
  step E token userGroups u s new (inr tt) s' ->
  exists t1 t2 content,
    staged userGroups u = inr content /\
    map ev_call new
    = [ DateNow; DateNow;
        Fetch token (DataStoresCreate (datastoreId_of u t1));
        Fetch token (EnginesCreate (searchAppId_of u t2) (datastoreId_of u t1));
        WriteFileSync (userFilePath E u) content;
        BucketUpload (userFilePath E u) (gcsDest_of u);
        Fetch token (DocumentsImport (datastoreId_of u t1) (gcsPath_of u));
        UnlinkSync (userFilePath E u) ].
Proof. inversion 1; subst. exists t1, t2, content. auto. Qed.



Lemma step_before_import_detail E token userGroups u s new r s'
    a1 u' token' datastoreId gcsPath o a2 :
  step E token userGroups u s new r s' ->
  new = a1 ++ Event (Some u') (Fetch token' (DocumentsImport datastoreId gcsPath)) o :: a2 ->
  gcsPath = gcsPath_of u' /\
  exists a content,
    a1 = a ++ [ Event (Some u') (WriteFileSync (userFilePath E u') content) Returned;
                Event (Some u') (BucketUpload (userFilePath E u') (gcsDest_of u')) Returned ].
Proof.
  intros Hstep Hnew. destruct Hstep; subst new; unfold provisioned, ev in *;
    simpl in Hnew; explode Hnew; split; try reflexivity;
    eexists [_; _; _; _], _; reflexivity.
Qed.

(** X9.  In every batch, an import request for a user comes right after
    that user's staged file was written and uploaded, both successfully,
    and it names the object the upload created: bucket, then
    [<user>/messages.jsonl]. *)
Theorem import_names_the_uploaded_object E rawData s l1 u token datastoreId gcsPath o l2 :
  log_of E rawData s
  = l1 ++ Event (Some u) (Fetch token (DocumentsImport datastoreId gcsPath)) o :: l2 ->
  gcsPath = "gs://" +:+ BUCKET +:+ "/" +:+ (u +:+ "/" +:+ "messages.jsonl") /\
  exists a content,
    l1 = a ++ [ Event (Some u) (WriteFileSync (userFilePath E u) content) Returned;
                Event (Some u)
                  (BucketUpload (userFilePath E u) (u +:+ "/" +:+ "messages.jsonl"))
                  Returned ].
Proof.
  intros Hlog. pose proof (processInputFile_run E rawData s) as Hrun.
  destruct (run_split _ _ _ _ _ _ _ _ _ _ _ Hrun Hlog)
    as (rows & tok & g & w & s0 & new & r0 & s1 & a & a1 & a2
          & _ & _ & Hstep & Hnew & ->).
  destruct (step_before_import_detail _ _ _ _ _ _ _ _ _ _ _ _ _ _ _ Hstep Hnew)
    as (-> & b & content & ->).
  split; [reflexivity|]. exists (a ++ b), content. now rewrite <- app_assoc.
Qed.

Lemma import_names_the_uploaded_object_witness :
  let log := log_of cooperative_env (inr batch_u1) initial in
  exists a content,
    firstn 7 log
    = a ++ [ Event (Some "u1") (WriteFileSync (userFilePath cooperative_env "u1") content)
               Returned;
             Event (Some "u1")
               (BucketUpload (userFilePath cooperative_env "u1")
                  ("u1" +:+ "/" +:+ "messages.jsonl")) Returned ].
Proof.
  intros log.
  apply (import_names_the_uploaded_object cooperative_env (inr batch_u1) initial
           (firstn 7 log) "u1" "token" "datastore-u1-1700000000001"
           "gs://vertex-ai-search-bucket-123/u1/messages.jsonl"
           (Responded true "{}") (skipn 8 log)).
  vm_compute. reflexivity.
Defined.

Lemma step_before_unlink E token userGroups u s new r s' a1 u' path o a2 :
  step E token userGroups u s new r s' ->
  new = a1 ++ Event (Some u') (UnlinkSync path) o :: a2 ->
  path = userFilePath E u' /\ a2 = [] /\
  exists a content z t1,
    a1 = a ++ [ Event (Some u') (WriteFileSync path content) Returned;
                Event (Some u') (BucketUpload path (gcsDest_of u')) Returned;
                Event (Some u')
                  (Fetch token (DocumentsImport (datastoreId_of u' t1) (gcsPath_of u')))
                  (Responded true z) ].
Proof.
  intros Hstep Hnew. destruct Hstep; subst new; unfold provisioned, ev in *;
    simpl in Hnew; explode Hnew; split; try reflexivity; split; try reflexivity;
    eexists [_; _; _; _], _, _, _; reflexivity.
Qed.

(** X10.  In every batch, the only file the program deletes is the staged
    file of the user in hand, and it deletes it only right after that file
    was written and uploaded and the import request was accepted. *)
Theorem file_is_deleted_only_after_import E rawData s l1 u path o l2 :
  log_of E rawData s = l1 ++ Event (Some u) (UnlinkSync path) o :: l2 ->
  path = userFilePath E u /\
  exists a content token datastoreId z,
    l1 = a ++ [ Event (Some u) (WriteFileSync path content) Returned;
                Event (Some u) (BucketUpload path (gcsDest_of u)) Returned;
                Event (Some u)
                  (Fetch token (DocumentsImport datastoreId (gcsPath_of u)))
                  (Responded true z) ].
Proof.
  intros Hlog. pose proof (processInputFile_run E rawData s) as Hrun.
  destruct (run_split _ _ _ _ _ _ _ _ _ _ _ Hrun Hlog)
    as (rows & tok & g & w & s0 & new & r0 & s1 & a & a1 & a2
          & _ & _ & Hstep & Hnew & ->).
  destruct (step_before_unlink _ _ _ _ _ _ _ _ _ _ _ _ _ Hstep Hnew)
    as (-> & _ & b & content & z & t1 & ->).
  split; [reflexivity|].
  exists (a ++ b), content, tok, (datastoreId_of u t1), z. now rewrite <- app_assoc.
Qed.

Lemma file_is_deleted_only_after_import_witness :
  let log := log_of cooperative_env (inr batch_u1) initial in
  "/tmp/u1-messages.jsonl" = userFilePath cooperative_env "u1" /\
  exists a content token datastoreId z,
    firstn 8 log
    = a ++ [ Event (Some "u1") (WriteFileSync "/tmp/u1-messages.jsonl" content) Returned;
             Event (Some "u1") (BucketUpload "/tmp/u1-messages.jsonl" (gcsDest_of "u1"))
               Returned;
             Event (Some "u1")
               (Fetch token (DocumentsImport datastoreId (gcsPath_of "u1")))
               (Responded true z) ].
Proof.
  intros log.
  apply (file_is_deleted_only_after_import cooperative_env (inr batch_u1) initial
           (firstn 8 log) "u1" "/tmp/u1-messages.jsonl" Returned (skipn 9 log)).
  vm_compute. reflexivity.
Defined.

(** ** What the program never reads, and never touches *)

Lemma tenant_run_same_but_registry E token userGroups u s1 s2 :
  same_but_registry s1 s2 ->
  fst (tenant_run E token userGroups u s1) = fst (tenant_run E token userGroups u s2) /\
  same_but_registry (snd (tenant_run E token userGroups u s1))
                    (snd (tenant_run E token userGroups u s2)).
Proof.
  unfold same_but_registry. destruct s1 as [h f r1 c], s2 as [h2 f2 r2 c2]. simpl.
  intros (<- & <- & <-).
  unfold tenant_run, bind, set_tenant, now, createDataStore, createSearchApp,
    importData, uploadFileToGCS, fetch, writeFileSync, unlinkSync, perform,
    lift, ret, throw, bind, logged, set_userDatastores, set_files.
  cbn [history files userDatastores tenant fst snd].
  repeat (match goal with
          | |- context [match ?X with _ => _ end] =>
              match X with
              | context [match _ with _ => _ end] => fail 1
              | _ => destruct X
              end
          end; cbn [history files userDatastores tenant fst snd]);
    auto.
Qed.

Lemma for_of_same_but_registry E token userGroups keys : forall s1 s2,
  same_but_registry s1 s2 ->
  fst (for_of keys (tenant_run E token userGroups) s1)
  = fst (for_of keys (tenant_run E token userGroups) s2) /\
  same_but_registry (snd (for_of keys (tenant_run E token userGroups) s1))
                    (snd (for_of keys (tenant_run E token userGroups) s2)).
Proof.
  induction keys as [|u rest IH]; intros s1 s2 H; [now split|].
  destruct (tenant_run_same_but_registry E token userGroups u s1 s2 H) as [Hr Hs].
  simpl. unfold bind.
  destruct (tenant_run E token userGroups u s1) as [[e1|[]] s1'],
           (tenant_run E token userGroups u s2) as [[e2|[]] s2'];
    simpl in *; try discriminate; auto.
Qed.

(** X11.  The program never reads the registry [userDatastores], it only
    assigns into it: started with any other registry in place of the one of
    the process, a batch returns or throws the same, makes the same calls
    with the same outcomes, leaves the same local files and gets the same
    response. *)
Theorem registry_is_never_read E rawData s registry :
  let s2 := set_userDatastores registry s in
  fst (processInputFile E rawData s) = fst (processInputFile E rawData s2) /\
  log_of E rawData s = log_of E rawData s2 /\
  files (snd (processInputFile E rawData s)) = files (snd (processInputFile E rawData s2)) /\
  fst (api_process E rawData s) = fst (api_process E rawData s2).
Proof.
  intros s2.
  assert (Hp : fst (processInputFile E rawData s) = fst (processInputFile E rawData s2) /\
               same_but_registry (snd (processInputFile E rawData s))
                                 (snd (processInputFile E rawData s2))).
  { unfold processInputFile, bind, set_tenant, lift, getToken, logged, s2,
      set_userDatastores, same_but_registry.
    cbn [history files userDatastores tenant].
    destruct rawData as [e|rows]; [now split|].
    destruct (group_rows [] rows) as [e|userGroups]; [now split|].
    destruct (getAccessToken E (history s)) as [e|token]; [now split|].
    apply for_of_same_but_registry. unfold same_but_registry. simpl. auto. }
  destruct Hp as [Hr (Hh & Hf & _)]. split; [assumption|]. split; [|split].
  - unfold log_of. now rewrite Hh.
  - assumption.
  - unfold api_process.
    destruct (processInputFile E rawData s) as [[e1|[]] s1'],
             (processInputFile E rawData s2) as [[e2|[]] s2'];
      simpl in *; congruence.
Qed.

Lemma step_files_frame E token userGroups u s new r s' p :
  step E token userGroups u s new r s' ->
  p <> userFilePath E u ->
  files s' !! p = files s !! p.
Proof.
  intros Hstep Hp. destruct Hstep; cbn [files]; try reflexivity;
    rewrite ?lookup_delete_ne, ?lookup_insert_ne by congruence; reflexivity.
Qed.

Lemma loop_files_frame E token userGroups keys s segments r s' p :
  loop E token userGroups keys s segments r s' ->
  (forall u, In u (map fst segments) -> p <> userFilePath E u) ->
  files s' !! p = files s !! p.
Proof.
  induction 1; intros Hp; simpl in Hp.
  - reflexivity.
  - eapply step_files_frame; eauto.
  - rewrite IHloop by auto. eapply step_files_frame; eauto.
Qed.

(** X12.  The only local files a batch creates, changes or deletes are the
    staged files of the users it started: any other path holds after the
    batch what it held before. *)
Theorem other_files_are_untouched E rawData s p :
  (forall u, In u (runs (log_of E rawData s)) -> p <> userFilePath E u) ->
  files (snd (processInputFile E rawData s)) !! p = files s !! p.
Proof.
  pose proof (processInputFile_run E rawData s) as Hrun.
  remember (log_of E rawData s) as log eqn:Hlog. clear Hlog.
  remember (fst (processInputFile E rawData s)) as r eqn:Hr. clear Hr.
  remember (snd (processInputFile E rawData s)) as s' eqn:Hs'. clear Hs'.
  destruct Hrun as [e0 Hraw|rows e0 Hraw Hg|rows userGroups e0 Hraw Hg
                   |rows userGroups token segments r s' Hraw Hg Hloop];
    try reflexivity.
  rewrite runs_GetToken, (loop_runs _ _ _ _ _ _ _ _ Hloop). intros Hp.
  now rewrite (loop_files_frame _ _ _ _ _ _ _ _ p Hloop Hp).
Qed.

Lemma other_files_are_untouched_witness :
  let s := State [] {[ "/data/input.json" := "[]" ]} [] None in
  files (snd (processInputFile offline_bucket_env (inr batch_u1_u2) s)) !! "/data/input.json"
  = Some "[]".
Proof.
  intros s.
  rewrite (other_files_are_untouched offline_bucket_env (inr batch_u1_u2) s
             "/data/input.json").
  - reflexivity.
  - vm_compute. intros u [<-|[]]. discriminate.
Defined.

(** ** Resource ids *)

Lemma digits_no_dash d : occurs "-" (NilEmpty.string_of_uint d) = false.
Proof. induction d; simpl; auto. Qed.

Lemma Number_toString_N_no_dash t : occurs "-" (Number_toString (Z.of_N t)) = false.
Proof.
  unfold Number_toString. destruct t as [|p]; [reflexivity|]. simpl.
  unfold NilZero.string_of_uint. destruct (Pos.to_uint p); try apply digits_no_dash.
  reflexivity.
Qed.

Lemma Number_toString_inj a b : Number_toString a = Number_toString b -> a = b.
Proof.
  unfold Number_toString. intros H. apply DecimalZ.to_int_inj.
  assert (Hnz : forall z, Z.to_int z <> Decimal.Pos Decimal.Nil /\
                          Z.to_int z <> Decimal.Neg Decimal.Nil).
  { intros [|p|p]; simpl; split; try discriminate;
      intros Heq; inversion Heq as [Hp]; revert Hp; apply DecimalPos.Unsigned.to_uint_nonnil. }
  assert (Hs : Some (Z.to_int a) = Some (Z.to_int b)).
  { rewrite <- (NilZero.isi (Z.to_int a)), <- (NilZero.isi (Z.to_int b)) by apply Hnz.
    now rewrite H. }
  now inversion Hs.
Qed.

Lemma append_dash_inj a : forall b d1 d2,
  occurs "-" d1 = false -> occurs "-" d2 = false ->
  a +:+ String "-" d1 = b +:+ String "-" d2 -> a = b /\ d1 = d2.
Proof.
  induction a as [|c a IH]; intros [|c' b] d1 d2 H1 H2 H;
    rewrite ?append_nil, ?append_cons in H.
  - inversion H. auto.
  - inversion H; subst.
    rewrite occurs_append in H1. simpl in H1. rewrite orb_true_r in H1. discriminate.
  - inversion H; subst.
    rewrite occurs_append in H2. simpl in H2. rewrite orb_true_r in H2. discriminate.
  - injection H as -> H. destruct (IH _ _ _ H1 H2 H) as [-> ->]. auto.
Qed.

Lemma datastoreId_of_inj u t u' t' :
  datastoreId_of u t = datastoreId_of u' t' -> u = u' /\ t = t'.
Proof.
  unfold datastoreId_of. intros H. apply (inj (String.append "datastore-")) in H.
  change (u +:+ String "-" (Number_toString (Z.of_N t))
          = u' +:+ String "-" (Number_toString (Z.of_N t'))) in H.
  apply append_dash_inj in H; try apply Number_toString_N_no_dash.
  destruct H as [-> H]. apply Number_toString_inj, N2Z.inj in H. auto.
Qed.

Lemma step_DataStoresCreate E token userGroups u s new r s' x u' token' datastoreId o :
  step E token userGroups u s new r s' ->
  In x new ->
  x = Event (Some u') (Fetch token' (DataStoresCreate datastoreId)) o ->
  exists t, datastoreId = datastoreId_of u' t.
Proof.
  intros Hstep Hin ->.
  destruct Hstep; subst new; unfold provisioned, ev in *; simpl in Hin;
    repeat (destruct Hin as [Hin|Hin]; [inversion Hin; subst; eauto|]);
    destruct Hin.
Qed.

(** X13.  An index id names its user: the id is made of the user's key and
    a clock value, and because the numeral holds no hyphen the two can be
    read back from it, so two index-creation requests of a batch that carry
    the same id were made for the same user. *)
Theorem index_id_names_its_user E rawData s u u' token token' datastoreId o o' :
  In (Event (Some u) (Fetch token (DataStoresCreate datastoreId)) o) (log_of E rawData s) ->
  In (Event (Some u') (Fetch token' (DataStoresCreate datastoreId)) o') (log_of E rawData s) ->
  u = u'.
Proof.
  pose proof (processInputFile_run E rawData s) as Hrun. intros H1 H2.
  assert (Hid : forall v tok ou,
            In (Event (Some v) (Fetch tok (DataStoresCreate datastoreId)) ou)
               (log_of E rawData s) ->
            exists t, datastoreId = datastoreId_of v t).
  { intros v tok ou Hin. apply in_split in Hin. destruct Hin as (l1 & l2 & Hlog).
    destruct (run_split _ _ _ _ _ _ _ _ _ _ _ Hrun Hlog)
      as (rows & tk & g & w & s0 & new & r0 & s1 & a & a1 & a2
            & _ & _ & Hstep & Hnew & _).
    eapply step_DataStoresCreate; [exact Hstep | | reflexivity].
    rewrite Hnew. apply in_app_iff. right. now left. }
  destruct (Hid _ _ _ H1) as [t Ht]. destruct (Hid _ _ _ H2) as [t' Ht'].
  rewrite Ht in Ht'. now apply datastoreId_of_inj in Ht'.
Qed.

Lemma index_id_names_its_user_witness :
  In (Event (Some "u1")
        (Fetch "token" (DataStoresCreate "datastore-u1-1700000000001"))
        (Responded true "{}"))
     (log_of cooperative_env (inr batch_u1_u2) initial) /\
  "u1" = "u1".
Proof.
  assert (H : In (Event (Some "u1")
                    (Fetch "token" (DataStoresCreate "datastore-u1-1700000000001"))
                    (Responded true "{}"))
                 (log_of cooperative_env (inr batch_u1_u2) initial)).
  { vm_compute. do 3 right. left. reflexivity. }
  split; [exact H|].
  exact (index_id_names_its_user cooperative_env (inr batch_u1_u2) initial
           "u1" "u1" "token" "token" "datastore-u1-1700000000001"
           (Responded true "{}") (Responded true "{}") H H).
Defined.

(** ** A batch that stops part way *)

Lemma loop_aborted_segments E token userGroups keys s segments e s' :
  loop E token userGroups keys s segments (inl e) s' ->
  exists before u new,
    segments = before ++ [(u, new)] /\
    tenant s' = Some u /\
    forall v nv, In (v, nv) before ->
                 exists s0 s1, step E token userGroups v s0 nv (inr tt) s1.
Proof.
  remember (inl e) as r eqn:Hr. induction 1.
  - discriminate.
  - exists [], u, new. apply step_history in H. simpl. split; [reflexivity|].
    split; [tauto | intros ? ? []].
  - destruct (IHloop Hr) as (before & w & nw & -> & Ht & Hall).
    exists ((u, new) :: before), w, nw. split; [reflexivity|]. split; [assumption|].
    intros v nv [Heq|Hin]; [inversion Heq; subst; eauto | eauto].
Qed.

Lemma NoDup_prefix {A} (l1 l2 : list A) : List.NoDup (l1 ++ l2) -> List.NoDup l1.
Proof.
  induction l1 as [|x t IH]; simpl; intros H; [constructor|].
  inversion H; subst. constructor; [|auto].
  intros Hin. apply H2. apply in_app_iff. now left.
Qed.

(** X14.  When a batch throws during the run of a user, the users started
    before that one were carried through completely: for each of them the
    batch made the same eight calls as in a batch that completes, so their
    index and search app exist and their import was requested. *)
Theorem earlier_users_are_complete E rows s e u v :
  fst (processInputFile E (inr rows) s) = inl e ->
  tenant (snd (processInputFile E (inr rows) s)) = Some u ->
  In v (runs (log_of E (inr rows) s)) ->
  v <> u ->
  exists token t1 t2 content,
    jsonlContent (rows_of v rows) = inr content /\
    calls_of v (log_of E (inr rows) s)
    = [ DateNow; DateNow;
        Fetch token (DataStoresCreate (datastoreId_of v t1));
        Fetch token (EnginesCreate (searchAppId_of v t2) (datastoreId_of v t1));
        WriteFileSync (userFilePath E v) content;
        BucketUpload (userFilePath E v) (gcsDest_of v);
        Fetch token (DocumentsImport (datastoreId_of v t1) (gcsPath_of v));
        UnlinkSync (userFilePath E v) ].
Proof.
  intros Hr Ht Hv Hne. pose proof (processInputFile_run E (inr rows) s) as Hrun.
  rewrite Hr in Hrun.
  remember (log_of E (inr rows) s) as log eqn:Hlog. clear Hlog.
  remember (snd (processInputFile E (inr rows) s)) as s' eqn:Hs'. clear Hs' Hr.
  remember (inl e) as r eqn:Hr.
  destruct Hrun as [e0 Hraw|rows' e0 Hraw Hg|rows' userGroups e0 Hraw Hg
                   |rows' userGroups token segments r s' Hraw Hg Hloop];
    try discriminate.
  subst r. inversion Hraw; subst rows'.
  rewrite runs_GetToken, (loop_runs _ _ _ _ _ _ _ _ Hloop) in Hv.
  pose proof (loop_keys _ _ _ _ _ _ _ _ Hloop) as Hk. simpl in Hk.
  destruct Hk as (done & w & rest & Hkeys & Hm & Htw).
  destruct (loop_aborted_segments _ _ _ _ _ _ _ _ Hloop)
    as (before & w' & nw & Hsegs & Htw' & Hall).
  assert (Hw : w' = u) by congruence. subst w'.
  assert (Hnd : List.NoDup (map fst segments)).
  { rewrite Hm. pose proof (group_keys_NoDup _ _ Hg) as Hnd. rewrite Hkeys in Hnd.
    change (done ++ w :: rest) with (done ++ [w] ++ rest) in Hnd.
    rewrite app_assoc in Hnd. now apply NoDup_prefix in Hnd. }
  assert (Hkey : In v (Object_keys userGroups)).
  { rewrite Hkeys. rewrite Hm in Hv. apply in_app_iff in Hv. apply in_app_iff.
    destruct Hv as [Hv|[<-|[]]]; [now left | right; now left]. }
  apply in_map_iff in Hv. destruct Hv as ([v' nv] & Hv' & Hin). simpl in Hv'. subst v'.
  assert (Hbefore : In (v, nv) before).
  { rewrite Hsegs in Hin. apply in_app_iff in Hin.
    destruct Hin as [Hin|[Heq|[]]]; [assumption|]. inversion Heq; congruence. }
  destruct (Hall _ _ Hbefore) as (s0 & s1 & Hstep).
  destruct (step_completed_calls _ _ _ _ _ _ _ Hstep) as (t1 & t2 & content & Hst & Hcalls).
  exists token, t1, t2, content. split.
  - now rewrite <- (staged_group rows userGroups v Hg Hkey).
  - unfold calls_of.
    change (List.filter (labelled v)
              (Event None GetToken (ReturnedToken token) :: flatten segments))
      with (List.filter (labelled v) (flatten segments)).
    rewrite (filter_labelled_segments v nv segments); [assumption|assumption| |assumption].
    apply (loop_labels _ _ _ _ _ _ _ _ Hloop).
Qed.

Lemma earlier_users_are_complete_witness :
  exists token t1 t2 content,
    jsonlContent (rows_of "A" batch_ABC) = inr content /\
    calls_of "A" (log_of refusing_env (inr batch_ABC) initial)
    = [ DateNow; DateNow;
        Fetch token (DataStoresCreate (datastoreId_of "A" t1));
        Fetch token (EnginesCreate (searchAppId_of "A" t2) (datastoreId_of "A" t1));
        WriteFileSync (userFilePath refusing_env "A") content;
        BucketUpload (userFilePath refusing_env "A") (gcsDest_of "A");
        Fetch token (DocumentsImport (datastoreId_of "A" t1) (gcsPath_of "A"));
        UnlinkSync (userFilePath refusing_env "A") ].
Proof.
  apply (earlier_users_are_complete refusing_env batch_ABC initial
           (Error "quota exceeded") "B" "A").
  - vm_compute; reflexivity.
  - vm_compute; reflexivity.
  - vm_compute. left. reflexivity.
  - discriminate.
Defined.

(** ** Instances of the conditional properties *)

Lemma grouping_returns_iff_witness :
  (exists userGroups, group_rows [] batch_u1_u2 = inr userGroups) /\
  (forall m, In m batch_u1_u2 ->
             exists k, userPhone_key m = inr k /\ inherited k = false).
Proof.
  assert (H : exists userGroups, group_rows [] batch_u1_u2 = inr userGroups)
    by (eexists; reflexivity).
  split; [exact H|].
  exact (proj1 (grouping_returns_iff batch_u1_u2) H).
Defined.

Lemma document_id_sanitizer_witness :
  (forall i c, String.get i "2024-01-01T00_00_00Z" = Some c -> in_class c = true) /\
  replace_outside_class "2024-01-01T00_00_00Z" = "2024-01-01T00_00_00Z".
Proof.
  assert (H : forall i c, String.get i "2024-01-01T00_00_00Z" = Some c -> in_class c = true).
  { intros i c. do 21 (destruct i as [|i]; [intros Hc; inversion Hc; reflexivity|]).
    discriminate. }
  split; [exact H|].
  exact (proj1 (proj2 (proj2 (document_id_sanitizer "2024-01-01T00_00_00Z"))) H).
Defined.

Lemma staged_content_built_iff_witness :
  (forall m, In m batch_u1_u2 -> string_timestamp m = true) /\
  (exists content, jsonlContent batch_u1_u2 = inr content).
Proof.
  assert (H : forall m, In m batch_u1_u2 -> string_timestamp m = true).
  { intros m [<-|[<-|[<-|[]]]]; reflexivity. }
  split; [exact H|].
  exact (proj2 (proj1 (staged_content_built_iff batch_u1_u2)) H).
Defined.
